(** * MyThreadPool: a shallow embedding of the thread pool and its properties

    The repository holds two copies of the pool:
    - [ThreadCpp/threadpool.cpp]: tasks are objects with a virtual [run()],
      results travel through [Result]/[Any]/[Semaphore];
    - [ThreadCppFinal/threadpool.h]: tasks are [std::packaged_task]s and
      results travel through [std::future].
    The controller ([ThreadPool]) and the worker loop ([threadFunc]) are the
    same code in both, so they are embedded once, in [Section PoolCore],
    over the type [Task] of the queue's elements.

    Concurrency is modelled by interleaving.  Every region a thread runs
    while holding [taskQueMtx_] is one atomic step; a blocking wait ends the
    step (the mutex is released) and the code after the wait starts the next
    one.  What the clock and the condition variables answer is an input of
    the step ([now], [cv_status], [timed_out]); a wait may return at any
    time, as the standard allows.  The setters and [start], which take no
    lock, are one step each.  A task is a computation of a value: it does
    not call the pool.  Console output is left out. *)

From Stdlib Require Import ZArith Lia Bool String.
From stdpp Require Import base option list gmap.

Local Open Scope Z_scope.

(** ** Machine integers *)

Definition INT32_MAX : Z := 2147483647.
Definition INT32_MIN : Z := -2147483648.

(** The values of an [int]. *)
Definition in_int (z : Z) : Prop := INT32_MIN <= z <= INT32_MAX.

(** [++] and [--] on [std::atomic_int] wrap around in two's complement. *)
Definition wrap_int (z : Z) : Z := (z + 2147483648) mod 4294967296 - 2147483648.

(** Conversion of an [int] to [size_t] / [unsigned long long] (64 bits). *)
Definition to_size_t (z : Z) : Z := z mod 18446744073709551616.
Definition to_uLong (z : Z) : Z := z mod 18446744073709551616.

(** ** Constants of threadpool.h / threadpool.cpp *)

Definition TASK_MAX_THRESHHOLD : Z := INT32_MAX.
Definition THREAD_MAX_THRESHHOLD : Z := 10.
Definition THREAD_MAX_IDLE_TIME : Z := 60.

(** Ticks of [std::chrono::high_resolution_clock] in one second
    (nanoseconds in libstdc++ and libc++). *)
Definition ticks_per_second : Z := 1000000000.

(** [duration_cast<std::chrono::seconds>(d).count()]: truncation. *)
Definition seconds_of (ticks : Z) : Z := Z.quot ticks ticks_per_second.

Inductive PoolMode : Type := MODE_FIXED | MODE_CACHED.

Global Instance PoolMode_eq_dec : EqDecision PoolMode.
Proof. solve_decision. Defined.

(** ** class Thread *)

(** [func_] is always [ThreadPool::threadFunc] bound to the pool, so only
    the identifier is kept. *)
Record Thread : Type := { threadId_ : Z }.

(** [Thread::Thread]: [threadId_(generateId_++)] on the static counter, a
    plain [int]; past [INT32_MAX] the increment is undefined in C++ and
    wraps here. *)
Definition Thread_new (generateId_ : Z) : Thread * Z :=
  ({| threadId_ := generateId_ |}, wrap_int (generateId_ + 1)).

Definition getId (t : Thread) : Z := threadId_ t.

(** ** Condition variables and what a step makes observable *)

Inductive CondVar : Type := notFull_ | notEmpty_ | exitCond_.

Global Instance CondVar_eq_dec : EqDecision CondVar.
Proof. solve_decision. Defined.

Inductive cv_status : Type := no_timeout | timeout.

Section PoolCore.

Context {Task : Type}.

(** The calls a step makes on the queue and on the condition variables, in
    program order. *)
Inductive Event : Type :=
  | EvEmplace (t : Task)      (* taskQue_.emplace(t) *)
  | EvPop (t : Task)          (* t = taskQue_.front(); taskQue_.pop() *)
  | EvNotifyAll (c : CondVar) (* c.notify_all() *).

(** ** class ThreadPool *)

Record ThreadPool : Type := {
  threads_ : gmap Z Thread;
  initThreadSize_ : Z;
  threadSizeThreshHold_ : Z;
  curThreadSize_ : Z;
  idleThreadSize_ : Z;
  taskQue_ : list Task;
  taskSize_ : Z;
  taskQueMaxThreshHold_ : Z;
  poolMode_ : PoolMode;
  isPoolRunning_ : bool
}.

Definition set_threads_ (v : gmap Z Thread) (p : ThreadPool) : ThreadPool :=
  {| threads_ := v; initThreadSize_ := initThreadSize_ p;
     threadSizeThreshHold_ := threadSizeThreshHold_ p;
     curThreadSize_ := curThreadSize_ p; idleThreadSize_ := idleThreadSize_ p;
     taskQue_ := taskQue_ p; taskSize_ := taskSize_ p;
     taskQueMaxThreshHold_ := taskQueMaxThreshHold_ p;
     poolMode_ := poolMode_ p; isPoolRunning_ := isPoolRunning_ p |}.

Definition set_initThreadSize_ (v : Z) (p : ThreadPool) : ThreadPool :=
  {| threads_ := threads_ p; initThreadSize_ := v;
     threadSizeThreshHold_ := threadSizeThreshHold_ p;
     curThreadSize_ := curThreadSize_ p; idleThreadSize_ := idleThreadSize_ p;
     taskQue_ := taskQue_ p; taskSize_ := taskSize_ p;
     taskQueMaxThreshHold_ := taskQueMaxThreshHold_ p;
     poolMode_ := poolMode_ p; isPoolRunning_ := isPoolRunning_ p |}.

Definition set_threadSizeThreshHold_ (v : Z) (p : ThreadPool) : ThreadPool :=
  {| threads_ := threads_ p; initThreadSize_ := initThreadSize_ p;
     threadSizeThreshHold_ := v;
     curThreadSize_ := curThreadSize_ p; idleThreadSize_ := idleThreadSize_ p;
     taskQue_ := taskQue_ p; taskSize_ := taskSize_ p;
     taskQueMaxThreshHold_ := taskQueMaxThreshHold_ p;
     poolMode_ := poolMode_ p; isPoolRunning_ := isPoolRunning_ p |}.

Definition set_curThreadSize_ (v : Z) (p : ThreadPool) : ThreadPool :=
  {| threads_ := threads_ p; initThreadSize_ := initThreadSize_ p;
     threadSizeThreshHold_ := threadSizeThreshHold_ p;
     curThreadSize_ := v; idleThreadSize_ := idleThreadSize_ p;
     taskQue_ := taskQue_ p; taskSize_ := taskSize_ p;
     taskQueMaxThreshHold_ := taskQueMaxThreshHold_ p;
     poolMode_ := poolMode_ p; isPoolRunning_ := isPoolRunning_ p |}.

Definition set_idleThreadSize_ (v : Z) (p : ThreadPool) : ThreadPool :=
  {| threads_ := threads_ p; initThreadSize_ := initThreadSize_ p;
     threadSizeThreshHold_ := threadSizeThreshHold_ p;
     curThreadSize_ := curThreadSize_ p; idleThreadSize_ := v;
     taskQue_ := taskQue_ p; taskSize_ := taskSize_ p;
     taskQueMaxThreshHold_ := taskQueMaxThreshHold_ p;
     poolMode_ := poolMode_ p; isPoolRunning_ := isPoolRunning_ p |}.

Definition set_taskQue_ (v : list Task) (p : ThreadPool) : ThreadPool :=
  {| threads_ := threads_ p; initThreadSize_ := initThreadSize_ p;
     threadSizeThreshHold_ := threadSizeThreshHold_ p;
     curThreadSize_ := curThreadSize_ p; idleThreadSize_ := idleThreadSize_ p;
     taskQue_ := v; taskSize_ := taskSize_ p;
     taskQueMaxThreshHold_ := taskQueMaxThreshHold_ p;
     poolMode_ := poolMode_ p; isPoolRunning_ := isPoolRunning_ p |}.

Definition set_taskSize_ (v : Z) (p : ThreadPool) : ThreadPool :=
  {| threads_ := threads_ p; initThreadSize_ := initThreadSize_ p;
     threadSizeThreshHold_ := threadSizeThreshHold_ p;
     curThreadSize_ := curThreadSize_ p; idleThreadSize_ := idleThreadSize_ p;
     taskQue_ := taskQue_ p; taskSize_ := v;
     taskQueMaxThreshHold_ := taskQueMaxThreshHold_ p;
     poolMode_ := poolMode_ p; isPoolRunning_ := isPoolRunning_ p |}.

Definition set_taskQueMaxThreshHold_ (v : Z) (p : ThreadPool) : ThreadPool :=
  {| threads_ := threads_ p; initThreadSize_ := initThreadSize_ p;
     threadSizeThreshHold_ := threadSizeThreshHold_ p;
     curThreadSize_ := curThreadSize_ p; idleThreadSize_ := idleThreadSize_ p;
     taskQue_ := taskQue_ p; taskSize_ := taskSize_ p;
     taskQueMaxThreshHold_ := v;
     poolMode_ := poolMode_ p; isPoolRunning_ := isPoolRunning_ p |}.

Definition set_poolMode_ (v : PoolMode) (p : ThreadPool) : ThreadPool :=
  {| threads_ := threads_ p; initThreadSize_ := initThreadSize_ p;
     threadSizeThreshHold_ := threadSizeThreshHold_ p;
     curThreadSize_ := curThreadSize_ p; idleThreadSize_ := idleThreadSize_ p;
     taskQue_ := taskQue_ p; taskSize_ := taskSize_ p;
     taskQueMaxThreshHold_ := taskQueMaxThreshHold_ p;
     poolMode_ := v; isPoolRunning_ := isPoolRunning_ p |}.

Definition set_isPoolRunning_ (v : bool) (p : ThreadPool) : ThreadPool :=
  {| threads_ := threads_ p; initThreadSize_ := initThreadSize_ p;
     threadSizeThreshHold_ := threadSizeThreshHold_ p;
     curThreadSize_ := curThreadSize_ p; idleThreadSize_ := idleThreadSize_ p;
     taskQue_ := taskQue_ p; taskSize_ := taskSize_ p;
     taskQueMaxThreshHold_ := taskQueMaxThreshHold_ p;
     poolMode_ := poolMode_ p; isPoolRunning_ := v |}.

(** [ThreadPool::ThreadPool()] *)
Definition ThreadPool_new : ThreadPool :=
  {| threads_ := ∅;
     initThreadSize_ := 4;
     taskSize_ := 0;
     idleThreadSize_ := 0;
     curThreadSize_ := 0;
     taskQueMaxThreshHold_ := TASK_MAX_THRESHHOLD;
     threadSizeThreshHold_ := THREAD_MAX_THRESHHOLD;
     poolMode_ := MODE_FIXED;
     isPoolRunning_ := false;
     taskQue_ := [] |}.

Definition checkRunningState (p : ThreadPool) : bool := isPoolRunning_ p.

Definition setMode (mode : PoolMode) (p : ThreadPool) : ThreadPool :=
  if checkRunningState p then p else set_poolMode_ mode p.

Definition setInitThreadSize (size : Z) (p : ThreadPool) : ThreadPool :=
  set_initThreadSize_ size p.

Definition setTaskQueMaxThreshHold (threshHold : Z) (p : ThreadPool) : ThreadPool :=
  if checkRunningState p then p else set_taskQueMaxThreshHold_ threshHold p.

Definition setThreadSizeThreshHold (threshHold : Z) (p : ThreadPool) : ThreadPool :=
  if checkRunningState p then p
  else if decide (poolMode_ p = MODE_CACHED)
       then set_threadSizeThreshHold_ threshHold p
       else p.

(** ** The threads of the process *)

(** Where a thread running [threadFunc] stands between two atomic steps. *)
Inductive Pc : Type :=
  | Begin        (* created by [std::thread], [threadFunc] not entered yet *)
  | LoopHead     (* top of [for(;;)], about to lock [taskQueMtx_] *)
  | InWaitFor    (* inside [notEmpty_.wait_for(lock, 1s)], mutex released *)
  | InWait       (* inside [notEmpty_.wait(lock)], mutex released *)
  | Exec (task : Task) (* mutex released, about to run the task it popped *)
  | Returned     (* [threadFunc] has returned *).

(** The locals of one activation of [threadFunc]. *)
Record Worker : Type := {
  threadid : Z;
  lastTime : Z;
  pc : Pc
}.

Definition set_pc (v : Pc) (w : Worker) : Worker :=
  {| threadid := threadid w; lastTime := lastTime w; pc := v |}.

(** The pool, the static [Thread::generateId_] and the detached threads that
    [Thread::start] has created, in creation order. *)
Record Process : Type := {
  pool : ThreadPool;
  generateId_ : Z;
  os_threads : list Worker
}.

Definition set_pool (v : ThreadPool) (st : Process) : Process :=
  {| pool := v; generateId_ := generateId_ st; os_threads := os_threads st |}.

Definition set_worker (i : nat) (w : Worker) (st : Process) : Process :=
  {| pool := pool st; generateId_ := generateId_ st;
     os_threads := <[i := w]> (os_threads st) |}.

(** A process in which nothing but the pool's constructor has run;
    [g] is what [Thread::generateId_] holds (0 unless threads were made
    before). *)
Definition fresh (g : Z) : Process :=
  {| pool := ThreadPool_new; generateId_ := g; os_threads := [] |}.

(** [Thread::start]: [std::thread t(func_, threadId_); t.detach();] *)
Definition Thread_start (t : Thread) (st : Process) : Process :=
  {| pool := pool st; generateId_ := generateId_ st;
     os_threads := os_threads st ++ [{| threadid := threadId_ t; lastTime := 0; pc := Begin |}] |}.

(** [std::unordered_map::emplace]: nothing is inserted under a key that is
    already there. *)
Definition emplace (k : Z) (v : Thread) (m : gmap Z Thread) : gmap Z Thread :=
  match m !! k with
  | Some _ => m
  | None => <[k := v]> m
  end.

(** ** ThreadPool::submitTask, the part both copies share *)

(** The predicate handed to [notFull_.wait_for]:
    [taskQue_.size() < (size_t)taskQueMaxThreshHold_]. *)
Definition queue_not_full (p : ThreadPool) : bool :=
  Z.of_nat (length (taskQue_ p)) <? to_size_t (taskQueMaxThreshHold_ p).

(** [notFull_.wait_for(lock, 1s, pred)], seen from the state [p] in which it
    would return: [true] once the predicate holds, [false] when the second
    has passed ([timed_out]) and it still does not; [None] while the caller
    is still blocked. *)
Definition notFull_wait_for (timed_out : bool) (p : ThreadPool) : option bool :=
  if queue_not_full p then Some true
  else if timed_out then Some false
  else None.

(** The test that guards the creation of a thread in cached mode. *)
Definition needs_new_thread (p : ThreadPool) : bool :=
  bool_decide (poolMode_ p = MODE_CACHED)
  && (idleThreadSize_ p <? taskSize_ p)
  && (curThreadSize_ p <? threadSizeThreshHold_ p).

(** From [taskQue_.emplace] to just before the [return]. *)
Definition accept_task (sp : Task) (st : Process) : Process * list Event :=
  let p := pool st in
  let p1 := set_taskSize_ (wrap_int (taskSize_ p + 1))
              (set_taskQue_ (taskQue_ p ++ [sp]) p) in
  let evs := [EvEmplace sp; EvNotifyAll notEmpty_] in
  if needs_new_thread p1 then
    let '(ptr, g) := Thread_new (generateId_ st) in
    let threadId := getId ptr in
    let ths := emplace threadId ptr (threads_ p1) in
    let st1 := {| pool := set_threads_ ths p1; generateId_ := g;
                  os_threads := os_threads st |} in
    (* threads_[threadId]->start(): the entry is there, emplace saw to it *)
    let st2 := Thread_start (default ptr (ths !! threadId)) st1 in
    let p2 := pool st2 in
    let p3 := set_curThreadSize_ (wrap_int (curThreadSize_ p2 + 1)) p2 in
    let p4 := set_idleThreadSize_ (wrap_int (idleThreadSize_ p3 + 1)) p3 in
    (set_pool p4 st2, evs)
  else (set_pool p1 st, evs).

(** [submitTask] without the construction of the handle: whether the task
    was admitted, the process and the events.  [None]: still blocked. *)
Definition submitTask_admission (timed_out : bool) (sp : Task) (st : Process)
  : option (bool * Process * list Event) :=
  match notFull_wait_for timed_out (pool st) with
  | None => None
  | Some false => Some (false, st, [])
  | Some true => let '(st', evs) := accept_task sp st in Some (true, st', evs)
  end.

(** ** ThreadPool::start *)

(** First loop: [n] times [make_unique<Thread>] and [threads_.emplace]. *)
Fixpoint create_threads (n : nat) (st : Process) : Process :=
  match n with
  | O => st
  | S n' =>
      let '(ptr, g) := Thread_new (generateId_ st) in
      let threadId := getId ptr in
      create_threads n'
        {| pool := set_threads_ (emplace threadId ptr (threads_ (pool st))) (pool st);
           generateId_ := g; os_threads := os_threads st |}
  end.

(** Second loop, from index [i]: [threads_[i]->start(); idleThreadSize_++].
    Under a key that is absent [operator[]] default-inserts a null pointer,
    and [->] on it is undefined: [None]. *)
Fixpoint start_threads (n : nat) (i : Z) (st : Process) : option Process :=
  match n with
  | O => Some st
  | S n' =>
      match threads_ (pool st) !! i with
      | None => None
      | Some t =>
          let st1 := Thread_start t st in
          let p1 := pool st1 in
          start_threads n' (i + 1)
            (set_pool (set_idleThreadSize_ (wrap_int (idleThreadSize_ p1 + 1)) p1) st1)
      end
  end.

(** [i < initThreadSize_] from [i = 0] holds [Z.to_nat initThreadSize] times. *)
Definition start (initThreadSize : Z) (st : Process) : option Process :=
  let p := set_curThreadSize_ initThreadSize
             (set_initThreadSize_ initThreadSize
                (set_isPoolRunning_ true (pool st))) in
  start_threads (Z.to_nat initThreadSize) 0
    (create_threads (Z.to_nat initThreadSize) (set_pool p st)).

(** ** ThreadPool::~ThreadPool *)

(** [isPoolRunning_ = false], before the mutex is taken. *)
Definition dtor_clear_flag (p : ThreadPool) : ThreadPool := set_isPoolRunning_ false p.

(** The predicate of [exitCond_.wait]: the destructor returns once it holds. *)
Definition all_exited (p : ThreadPool) : bool := bool_decide (threads_ p = ∅).

(** ** ThreadPool::threadFunc *)

Definition erase_thread (id : Z) (p : ThreadPool) : ThreadPool :=
  set_threads_ (delete id (threads_ p)) p.

(** One evaluation of [while (taskQue_.size() == 0)] with the mutex held,
    up to the point where the mutex is given up: by returning, by entering a
    wait, or by leaving the block with a task in hand. *)
Definition while_taskQue_empty (w : Worker) (p : ThreadPool)
  : ThreadPool * Worker * list Event :=
  match taskQue_ p with
  | [] =>
      if negb (isPoolRunning_ p) then
        (erase_thread (threadid w) p, set_pc Returned w, [EvNotifyAll exitCond_])
      else if decide (poolMode_ p = MODE_CACHED) then (p, set_pc InWaitFor w, [])
      else (p, set_pc InWait w, [])
  | task :: rest =>
      let p1 := set_idleThreadSize_ (wrap_int (idleThreadSize_ p - 1)) p in
      let p2 := set_taskSize_ (wrap_int (taskSize_ p1 - 1)) (set_taskQue_ rest p1) in
      (p2, set_pc (Exec task) w,
       [EvPop task]
       ++ (if bool_decide (rest = []) then [] else [EvNotifyAll notEmpty_])
       ++ [EvNotifyAll notFull_])
  end.

(** What follows [notEmpty_.wait_for(lock, 1s)] once it has returned
    [status] at time [now], the mutex held again. *)
Definition after_wait_for (status : cv_status) (now : Z) (w : Worker) (p : ThreadPool)
  : ThreadPool * Worker * list Event :=
  match status with
  | timeout =>
      let dur := seconds_of (now - lastTime w) in
      if (THREAD_MAX_IDLE_TIME <=? dur) && (initThreadSize_ p <? curThreadSize_ p) then
        let p1 := erase_thread (threadid w) p in
        let p2 := set_curThreadSize_ (wrap_int (curThreadSize_ p1 - 1)) p1 in
        let p3 := set_idleThreadSize_ (wrap_int (idleThreadSize_ p2 - 1)) p2 in
        (p3, set_pc Returned w, [])
      else while_taskQue_empty w p
  | no_timeout => while_taskQue_empty w p
  end.

(** After the task: [idleThreadSize_++; lastTime = now()]. *)
Definition after_task (now : Z) (w : Worker) (p : ThreadPool)
  : ThreadPool * Worker * list Event :=
  (set_idleThreadSize_ (wrap_int (idleThreadSize_ p + 1)) p,
   {| threadid := threadid w; lastTime := now; pc := LoopHead |}, []).

(** What makes a thread take its next step. *)
Inductive WorkerAct : Type :=
  | Enter (now : Z)                        (* first line: [lastTime = now()] *)
  | Lock                                   (* the mutex is acquired *)
  | WaitForReturns (status : cv_status) (now : Z)
  | WaitReturns
  | TaskReturns (now : Z)                  (* the task ran and returned *).

Definition threadFunc_step (a : WorkerAct) (w : Worker) (p : ThreadPool)
  : option (ThreadPool * Worker * list Event) :=
  match a, pc w with
  | Enter now, Begin =>
      Some (p, {| threadid := threadid w; lastTime := now; pc := LoopHead |}, [])
  | Lock, LoopHead => Some (while_taskQue_empty w p)
  | WaitForReturns status now, InWaitFor => Some (after_wait_for status now w p)
  | WaitReturns, InWait => Some (while_taskQue_empty w p)
  | TaskReturns now, Exec _ => Some (after_task now w p)
  | _, _ => None
  end.

(** ** The process as a transition system *)

Inductive Op : Type :=
  | CallSetMode (mode : PoolMode)
  | CallSetInitThreadSize (size : Z)
  | CallSetTaskQueMaxThreshHold (threshHold : Z)
  | CallSetThreadSizeThreshHold (threshHold : Z)
  | CallStart (initThreadSize : Z)
  | CallSubmitTask (sp : Task) (timed_out : bool)
  | DtorClearFlag
  | DtorNotify                  (* lock; [notEmpty_.notify_all()] *)
  | Run (i : nat) (a : WorkerAct) (* thread number [i] takes a step *).

(** [None]: the operation cannot happen in [st] (the caller is blocked, the
    thread is elsewhere) or its behaviour is undefined there. *)
Definition step (op : Op) (st : Process) : option (Process * list Event) :=
  match op with
  | CallSetMode mode => Some (set_pool (setMode mode (pool st)) st, [])
  | CallSetInitThreadSize size => Some (set_pool (setInitThreadSize size (pool st)) st, [])
  | CallSetTaskQueMaxThreshHold t => Some (set_pool (setTaskQueMaxThreshHold t (pool st)) st, [])
  | CallSetThreadSizeThreshHold t => Some (set_pool (setThreadSizeThreshHold t (pool st)) st, [])
  | CallStart n => st' ← start n st; Some (st', [])
  | CallSubmitTask sp timed_out =>
      r ← submitTask_admission timed_out sp st; Some (r.1.2, r.2)
  | DtorClearFlag => Some (set_pool (dtor_clear_flag (pool st)) st, [])
  | DtorNotify => Some (st, [EvNotifyAll notEmpty_])
  | Run i a =>
      w ← os_threads st !! i;
      r ← threadFunc_step a w (pool st);
      Some (set_worker i r.1.2 (set_pool r.1.1 st), r.2)
  end.

(** A schedule run from [st]; the events are concatenated in order. *)
Fixpoint run (ops : list Op) (st : Process) : option (Process * list Event) :=
  match ops with
  | [] => Some (st, [])
  | op :: ops' =>
      match step op st with
      | None => None
      | Some (st1, evs1) =>
          match run ops' st1 with
          | None => None
          | Some (st2, evs2) => Some (st2, evs1 ++ evs2)
          end
      end
  end.

(** The tasks a list of events puts into the queue and takes out of it. *)
Definition emplaced (evs : list Event) : list Task :=
  omap (fun e => match e with EvEmplace t => Some t | _ => None end) evs.

Definition popped (evs : list Event) : list Task :=
  omap (fun e => match e with EvPop t => Some t | _ => None end) evs.

End PoolCore.

Arguments Event : clear implicits.
Arguments ThreadPool : clear implicits.
Arguments Pc : clear implicits.
Arguments Worker : clear implicits.
Arguments Process : clear implicits.
Arguments Op : clear implicits.

(** ** User code: what calling a task comes to *)

Inductive exn : Type := Exn (what : string).

(** A call either returns a value or leaves by an exception. *)
Inductive Outcome (A : Type) : Type :=
  | Returns (a : A)
  | Throws (e : exn).
Arguments Returns {A} a.
Arguments Throws {A} e.

(** A callable of the user: given enough fuel it comes to an outcome, with
    too little (or if it never ends) the answer is [None]. *)
Definition RunFn (A : Type) : Type := nat -> option (Outcome A).

(** * ThreadCpp: Task objects, Result, Any, Semaphore *)

Module ThreadCpp.

(** Modelled from the spec: the header declaring [Any] is not among the
    sources.  The spec calls it "a boxed any value returned from task
    execution" (type-erased result storage); [cast_] gives back the value
    when asked for the type that was stored.  Only the types the sources
    store are listed: nothing (default-constructed or moved-from), a
    [const char*] (the sentinel of [Result::get]) and a [uLong]. *)
Inductive Any : Type :=
  | Any_null
  | Any_cstr (s : string)
  | Any_uLong (v : Z).

Definition cast_uLong (a : Any) : option Z :=
  match a with Any_uLong v => Some v | _ => None end.

(** Modelled from the spec: the header declaring [Semaphore] is not among
    the sources.  The spec names "a counting semaphore that a consumer
    blocks on until readiness": a count that starts at 0, [post] adds one,
    [wait] blocks ([None]) while the count is not positive and then takes
    one. *)
Record Semaphore : Type := { resLimit_ : Z }.

Definition Semaphore_new : Semaphore := {| resLimit_ := 0 |}.

Definition Semaphore_post (s : Semaphore) : Semaphore :=
  {| resLimit_ := resLimit_ s + 1 |}.

Definition Semaphore_wait (s : Semaphore) : option Semaphore :=
  if 0 <? resLimit_ s then Some {| resLimit_ := resLimit_ s - 1 |} else None.

(** [std::shared_ptr<Task>]: null, or the address of a Task object. *)
Abbreviation shared_ptr := (option nat).

(** A Task object: its [run()] override and the [Result*] it reports to. *)
Record Task : Type := {
  run : RunFn Any;
  result_ : option nat
}.

(** [Task::Task()]: [result_(nullptr)], with the [run] of the subclass. *)
Definition Task_new (r : RunFn Any) : Task := {| run := r; result_ := None |}.

Record Result : Type := {
  isValid_ : bool;
  task_ : shared_ptr;
  any_ : Any;
  sem_ : Semaphore
}.

(** The process together with the Task and Result objects; an address is an
    index into the list. *)
Record State : Type := {
  proc : Process shared_ptr;
  tasks : list Task;
  results : list Result
}.

Definition set_proc (v : Process shared_ptr) (st : State) : State :=
  {| proc := v; tasks := tasks st; results := results st |}.

Definition initial (g : Z) : State :=
  {| proc := fresh g; tasks := []; results := [] |}.

(** [std::make_shared<T>(...)] for a subclass [T] of [Task]. *)
Definition make_shared (r : RunFn Any) (st : State) : shared_ptr * State :=
  (Some (length (tasks st)),
   {| proc := proc st; tasks := tasks st ++ [Task_new r]; results := results st |}).

(** [Task::setResult] *)
Definition Task_setResult (res : nat) (t : Task) : Task :=
  {| run := run t; result_ := Some res |}.

(** [Result::Result(task, isValid)]: the new object goes to the address
    [length (results st)], and [task_->setResult(this)] runs in the body.
    [None]: [task] is null or dangling, and [->] is undefined. *)
Definition Result_new (task : shared_ptr) (isValid : bool) (st : State)
  : option (nat * State) :=
  t ← task;
  obj ← tasks st !! t;
  let this := length (results st) in
  Some (this,
        {| proc := proc st;
           tasks := <[t := Task_setResult this obj]> (tasks st);
           results := results st ++
             [{| isValid_ := isValid; task_ := task; any_ := Any_null;
                 sem_ := Semaphore_new |}] |}).

(** Modelled from the spec: the default argument of [isValid] in
    [Result(task, isValid)] is declared in the header that is not among the
    sources.  The spec has a handle "marked invalid" on admission failure
    only, so [Result(sp)] makes a valid one. *)
Definition Result_isValid_default : bool := true.

(** [Result::setVal] *)
Definition Result_setVal (any : Any) (r : Result) : Result :=
  {| isValid_ := isValid_ r; task_ := task_ r; any_ := any;
     sem_ := Semaphore_post (sem_ r) |}.

(** [Result::get] on the Result at address [this].  [None]: the caller is
    blocked in [sem_.wait()] (or [this] is not a Result). *)
Definition Result_get (this : nat) (st : State) : option (Any * State) :=
  r ← results st !! this;
  if negb (isValid_ r) then Some (Any_cstr EmptyString, st)
  else
    s ← Semaphore_wait (sem_ r);
    Some (any_ r,
          {| proc := proc st; tasks := tasks st;
             results := <[this := {| isValid_ := isValid_ r; task_ := task_ r;
                                     any_ := Any_null; sem_ := s |}]> (results st) |}).

(** [Task::exec] on the Task at address [t]:
    [if (result_ != nullptr) result_->setVal(run());] *)
Definition Task_exec (fuel : nat) (t : nat) (st : State) : option (Outcome State) :=
  obj ← tasks st !! t;
  match result_ obj with
  | None => Some (Returns st)
  | Some res =>
      r ← results st !! res;
      o ← run obj fuel;
      match o with
      | Throws e => Some (Throws e)
      | Returns any =>
          Some (Returns {| proc := proc st; tasks := tasks st;
                           results := <[res := Result_setVal any r]> (results st) |})
      end
  end.

(** [ThreadPool::submitTask]: the address of the [Result] it returns, the
    state and the events.  [None]: still blocked, or undefined. *)
Definition submitTask (timed_out : bool) (sp : shared_ptr) (st : State)
  : option (nat * State * list (Event shared_ptr)) :=
  b ← notFull_wait_for timed_out (pool (proc st));
  if negb b then
    rs ← Result_new sp false st; Some (rs.1, rs.2, [])
  else
    let '(pr, evs) := accept_task sp (proc st) in
    rs ← Result_new sp Result_isValid_default (set_proc pr st);
    Some (rs.1, rs.2, evs).

(** Thread [i] runs the task it holds and comes back to the loop:
    [if (task != nullptr) task->exec(); idleThreadSize_++; lastTime = now()].
    [Throws e]: the exception leaves [threadFunc], the function of a
    [std::thread], and [std::terminate] ends the process. *)
Definition run_task (i : nat) (fuel : nat) (now : Z) (st : State)
  : option (Outcome State) :=
  w ← os_threads (proc st) !! i;
  match pc w with
  | Exec task =>
      o ← match task with
          | None => Some (Returns st)
          | Some t => Task_exec fuel t st
          end;
      match o with
      | Throws e => Some (Throws e)
      | Returns st1 =>
          r ← step (Run i (TaskReturns now)) (proc st1);
          Some (Returns (set_proc r.1 st1))
      end
  | _ => None
  end.

(** One step of thread [i]; [fuel] only matters when it runs a task. *)
Definition worker_step (i : nat) (a : WorkerAct) (fuel : nat) (st : State)
  : option (Outcome State) :=
  match a with
  | TaskReturns now => run_task i fuel now st
  | _ => r ← step (Run i a) (proc st); Some (Returns (set_proc r.1 st))
  end.

(** A schedule of thread steps; an escaping exception ends everything. *)
Fixpoint run_workers (sched : list (nat * WorkerAct * nat)) (st : State)
  : option (Outcome State) :=
  match sched with
  | [] => Some (Returns st)
  | (i, a, fuel) :: sched' =>
      match worker_step i a fuel st with
      | Some (Returns st1) => run_workers sched' st1
      | other => other
      end
  end.

(** *** ThreadCpp/main.cpp *)

(** The loop of [MyTask::run], [for (uLong i = begin_; i <= end_; i++) sum += i;]
    from the values [i] and [sum] on; [end_] is converted at each test. *)
Fixpoint sum_loop (fuel : nat) (i end_ sum : Z) : option Z :=
  match fuel with
  | O => None
  | S fuel' =>
      if i <=? to_uLong end_
      then sum_loop fuel' (to_uLong (i + 1)) end_ (to_uLong (sum + i))
      else Some sum
  end.

(** [MyTask::run] of [MyTask(begin_, end_)]; the [uLong] is boxed on return. *)
Definition MyTask_run (begin_ end_ : Z) : RunFn Any :=
  fun fuel =>
    match sum_loop fuel (to_uLong begin_) end_ 0 with
    | Some sum => Some (Returns (Any_uLong sum))
    | None => None
    end.

(** [main] up to the submission: [pool.start(4)] and
    [pool.submitTask(std::make_shared<MyTask>(1, 10000000))]. *)
Definition main_submit : option (nat * State) :=
  pr ← start 4 (proc (initial 0));
  let '(sp, st) := make_shared (MyTask_run 1 10000000) (set_proc pr (initial 0)) in
  r ← submitTask false sp st;
  Some (r.1.1, r.1.2).

(** [main] after the threads have taken the steps of [sched]:
    [res1.get().cast_<uLong>()].  [None]: blocked, or the process is gone. *)
Definition main_sum1 (sched : list (nat * WorkerAct * nat)) : option Z :=
  rs ← main_submit;
  o ← run_workers sched rs.2;
  match o with
  | Throws _ => None
  | Returns st =>
      g ← Result_get rs.1 st;
      cast_uLong g.1
  end.

End ThreadCpp.

(** * ThreadCppFinal: std::packaged_task and std::future *)

Module ThreadCppFinal.

Section Futures.

(** The result type [RType] of the submitted callables and its
    value-initialised value [RType()].  The queue itself is untyped
    ([std::function<void()>]); one result type is enough here. *)
Context {RType : Type} (RType_default : RType).

(** The shared state behind a [packaged_task] and its [future]. *)
Inductive SharedState : Type :=
  | NotReady
  | HasValue (v : RType)
  | HasException (e : exn).

(** A [std::packaged_task<RType()>]: the bound callable and the address of
    its shared state.  The queue holds a lambda that captures a
    [shared_ptr] to it and calls it. *)
Record PackagedTask : Type := {
  fn : RunFn RType;
  state : nat
}.

Record State : Type := {
  proc : Process PackagedTask;
  states : list SharedState
}.

Definition set_proc (v : Process PackagedTask) (st : State) : State :=
  {| proc := v; states := states st |}.

Definition initial (g : Z) : State := {| proc := fresh g; states := [] |}.

(** [std::make_shared<std::packaged_task<RType()>>(f)] *)
Definition make_packaged_task (f : RunFn RType) (st : State) : PackagedTask * State :=
  ({| fn := f; state := length (states st) |},
   {| proc := proc st; states := states st ++ [NotReady] |}).

(** [packaged_task::operator()]: the callable runs, its value or the
    exception it throws is put into the shared state; on a state that is
    already satisfied [std::future_error] is thrown to the caller. *)
Definition packaged_task_call (fuel : nat) (t : PackagedTask) (ss : list SharedState)
  : option (Outcome (list SharedState)) :=
  s ← ss !! state t;
  match s with
  | NotReady =>
      o ← fn t fuel;
      match o with
      | Returns v => Some (Returns (<[state t := HasValue v]> ss))
      | Throws e => Some (Returns (<[state t := HasException e]> ss))
      end
  | _ => Some (Throws (Exn "promise_already_satisfied"))
  end.

(** [std::future::get] on the shared state at [s]: [None] while it blocks,
    then the value, or the stored exception thrown again. *)
Definition future_get (s : nat) (st : State) : option (Outcome RType) :=
  x ← states st !! s;
  match x with
  | NotReady => None
  | HasValue v => Some (Returns v)
  | HasException e => Some (Throws e)
  end.


(** [ThreadPool::submitTask(func, args...)] with [f] for
    [std::bind(func, args...)]: the future it returns (the address of its
    shared state), the state and the events.  [None]: still blocked. *)
Definition submitTask (timed_out : bool) (f : RunFn RType) (st : State)
  : option (nat * State * list (Event PackagedTask)) :=
  let '(task, st1) := make_packaged_task f st in
  let result := state task in
  b ← notFull_wait_for timed_out (pool (proc st1));
  if negb b then
    let '(task', st2) :=
      make_packaged_task (fun _ => Some (Returns RType_default)) st1 in
    o ← packaged_task_call 0 task' (states st2);
    match o with
    | Returns ss => Some (state task', {| proc := proc st2; states := ss |}, [])
    | Throws _ => None
    end
  else
    let '(pr, evs) := accept_task task (proc st1) in
    Some (result, set_proc pr st1, evs).

(** Thread [i] runs the task it holds and comes back to the loop:
    [if (task != nullptr) task(); idleThreadSize_++; lastTime = now()].
    The [std::function] in the queue is never empty.  [Throws e]: the
    exception leaves [threadFunc] and [std::terminate] ends the process. *)
Definition run_task (i : nat) (fuel : nat) (now : Z) (st : State)
  : option (Outcome State) :=
  w ← os_threads (proc st) !! i;
  match pc w with
  | Exec task =>
      o ← packaged_task_call fuel task (states st);
      match o with
      | Throws e => Some (Throws e)
      | Returns ss =>
          r ← step (Run i (TaskReturns now)) (proc st);
          Some (Returns {| proc := r.1; states := ss |})
      end
  | _ => None
  end.

End Futures.

Arguments SharedState : clear implicits.
Arguments PackagedTask : clear implicits.
Arguments State : clear implicits.

End ThreadCppFinal.

(** * Vocabulary of the statements *)

Section Vocabulary.

Context {T : Type}.

(** The fields declared [int] or [std::atomic_int] hold values of [int]. *)
Definition ints_ok (p : ThreadPool T) : Prop :=
  in_int (initThreadSize_ p) /\ in_int (threadSizeThreshHold_ p)
  /\ in_int (curThreadSize_ p) /\ in_int (idleThreadSize_ p)
  /\ in_int (taskSize_ p) /\ in_int (taskQueMaxThreshHold_ p).

(** The [int] parameters of the calls hold values of [int]. *)
Definition args_ok (op : Op T) : Prop :=
  match op with
  | CallSetInitThreadSize n | CallSetTaskQueMaxThreshHold n
  | CallSetThreadSizeThreshHold n | CallStart n => in_int n
  | _ => True
  end.

(** No negative queue capacity is configured. *)
Definition capacity_ok (op : Op T) : Prop :=
  match op with
  | CallSetTaskQueMaxThreshHold n => 0 <= n
  | _ => True
  end.

Definition is_start (op : Op T) : bool :=
  match op with CallStart _ => true | _ => false end.

Definition is_setInitThreadSize (op : Op T) : bool :=
  match op with CallSetInitThreadSize _ => true | _ => false end.

Definition is_setTaskQueMaxThreshHold (op : Op T) : bool :=
  match op with CallSetTaskQueMaxThreshHold _ => true | _ => false end.

Definition is_setThreadSizeThreshHold (op : Op T) : bool :=
  match op with CallSetThreadSizeThreshHold _ => true | _ => false end.

(** The length of the queue, as [taskQue_.size()]. *)
Definition queue_size (p : ThreadPool T) : Z := Z.of_nat (length (taskQue_ p)).

(** What a step of [threadFunc] can do to the pool. *)
Inductive pool_effect (w : Worker T) (p : ThreadPool T)
  : ThreadPool T -> Worker T -> list (Event T) -> Prop :=
  | eff_enter now :
      pc w = Begin ->
      pool_effect w p p {| threadid := threadid w; lastTime := now; pc := LoopHead |} []
  | eff_exit :
      taskQue_ p = [] -> isPoolRunning_ p = false ->
      pool_effect w p (erase_thread (threadid w) p) (set_pc Returned w)
        [EvNotifyAll exitCond_]
  | eff_block pc' :
      taskQue_ p = [] -> isPoolRunning_ p = true ->
      pc' = (if decide (poolMode_ p = MODE_CACHED) then InWaitFor else InWait) ->
      pool_effect w p p (set_pc pc' w) []
  | eff_pop task rest :
      taskQue_ p = task :: rest ->
      pool_effect w p
        (set_taskSize_ (wrap_int (taskSize_ p - 1))
           (set_taskQue_ rest (set_idleThreadSize_ (wrap_int (idleThreadSize_ p - 1)) p)))
        (set_pc (Exec task) w)
        ([EvPop task] ++ (if bool_decide (rest = []) then [] else [EvNotifyAll notEmpty_])
                      ++ [EvNotifyAll notFull_])
  | eff_idle_exit now :
      pc w = InWaitFor ->
      THREAD_MAX_IDLE_TIME <= seconds_of (now - lastTime w) ->
      initThreadSize_ p < curThreadSize_ p ->
      pool_effect w p
        (set_idleThreadSize_ (wrap_int (idleThreadSize_ p - 1))
           (set_curThreadSize_ (wrap_int (curThreadSize_ p - 1))
              (erase_thread (threadid w) p)))
        (set_pc Returned w) []
  | eff_task_done now task :
      pc w = Exec task ->
      pool_effect w p (set_idleThreadSize_ (wrap_int (idleThreadSize_ p + 1)) p)
        {| threadid := threadid w; lastTime := now; pc := LoopHead |} [].

(** The counter follows the queue, and the queue fits an [int]. *)
Definition counter_ok (p : ThreadPool T) : Prop :=
  taskSize_ p = queue_size p /\ queue_size p <= INT32_MAX
  /\ 0 <= taskQueMaxThreshHold_ p <= INT32_MAX.

End Vocabulary.

(** The sum of the [n] consecutive integers from [i] on. *)
Definition range_sum (i n : Z) : Z := i * n + n * (n - 1) / 2.

(** What holds in [main] between the submission and [res1.get()], for a
    task whose [run] is [f] and can only return [v]: the one Task object
    reports to the one Result, whatever is queued or being executed is that
    task, and the Result is either untouched or holds [v] with the
    semaphore posted. *)
Definition main_inv (f : RunFn ThreadCpp.Any) (v : ThreadCpp.Any) (st : ThreadCpp.State) : Prop :=
  ThreadCpp.tasks st = [{| ThreadCpp.run := f; ThreadCpp.result_ := Some 0%nat |}]
  /\ Forall (fun q => q = Some 0%nat) (taskQue_ (pool (ThreadCpp.proc st)))
  /\ Forall (fun w => forall t, pc w = Exec t -> t = Some 0%nat)
        (os_threads (ThreadCpp.proc st))
  /\ exists r,
       ThreadCpp.results st = [r]
       /\ ThreadCpp.isValid_ r = true
       /\ ((ThreadCpp.any_ r = ThreadCpp.Any_null
            /\ ThreadCpp.resLimit_ (ThreadCpp.sem_ r) = 0)
           \/ (ThreadCpp.any_ r = v /\ 1 <= ThreadCpp.resLimit_ (ThreadCpp.sem_ r))).

(** A schedule for [main]: the first thread enters [threadFunc], takes the
    task and runs it to the end. *)
Definition first_thread_runs_it : list (nat * WorkerAct * nat) :=
  [(0%nat, Enter 0, 0%nat); (0%nat, Lock, 0%nat);
   (0%nat, TaskReturns 0, Z.to_nat 10000001)].

(** ** Concrete runs *)

(** Cached mode, then [start(20)] with the ceiling left at its default of
    10, then one submission. *)
Definition started_above_ceiling : list (Op nat) :=
  [CallSetMode MODE_CACHED; CallStart 20; CallSubmitTask 7%nat false].

(** [start(4)], then [setInitThreadSize(5)] on the running pool. *)
Definition initial_count_raised : list (Op nat) :=
  [CallStart 4; CallSetInitThreadSize 5].

(** Two submissions before [start], then the capacity is set to 1. *)
Definition capacity_lowered : list (Op nat) :=
  [CallSubmitTask 1%nat false; CallSubmitTask 2%nat false;
   CallSetTaskQueMaxThreshHold 1].

(** A cached pool started with no thread gets one task; the thread made for
    it runs the task, finds the queue empty and waits, second after second,
    for 59 seconds.  Then the destructor clears the running flag. *)
Definition idle_then_shutdown : list (Op nat) :=
  [CallSetMode MODE_CACHED; CallStart 0; CallSubmitTask 7%nat false;
   Run 0 (Enter 0); Run 0 Lock; Run 0 (TaskReturns 0); Run 0 Lock]
  ++ map (fun k => Run 0 (WaitForReturns timeout (Z.of_nat k * ticks_per_second)))
         (seq 1 59)
  ++ [DtorClearFlag].

(** The wait of that thread then runs out, at second 60. *)
Definition last_wait_times_out : Op nat :=
  Run 0 (WaitForReturns timeout (60 * ticks_per_second)).

(** A cached pool that has not been started. *)
Definition cached_unstarted : Process nat :=
  set_pool (setMode MODE_CACHED ThreadPool_new) (fresh 0).

(** A pool that is running. *)
Definition running_pool : ThreadPool nat := set_isPoolRunning_ true ThreadPool_new.

(** A [run()] that throws. *)
Definition thrower : RunFn ThreadCpp.Any := fun _ => Some (Throws (Exn "boom")).




(** ** Vocabulary of the further properties *)

Section Census.

Context {T : Type}.

(** The thread is running a task. *)
Definition is_exec (w : Worker T) : bool :=
  match pc w with Exec _ => true | _ => false end.

(** [threadFunc] has returned. *)
Definition has_returned (w : Worker T) : bool :=
  match pc w with Returned => true | _ => false end.

Fixpoint count_where (f : Worker T -> bool) (l : list (Worker T)) : Z :=
  match l with
  | [] => 0
  | w :: l' => (if f w then 1 else 0) + count_where f l'
  end.

(** The threads that are running a task, and those that have not returned. *)
Definition executing (st : Process T) : Z := count_where is_exec (os_threads st).
Definition alive (st : Process T) : Z :=
  count_where (fun w => negb (has_returned w)) (os_threads st).

(** The thread [Thread::start] makes for the identifier [id]. *)
Definition new_worker (id : Z) : Worker T :=
  {| threadid := id; lastTime := 0; pc := Begin |}.

Fixpoint workers_from (id : Z) (n : nat) : list (Worker T) :=
  match n with
  | O => []
  | S n' => new_worker id :: workers_from (id + 1) n'
  end.

(** A process in which no [Thread] object has been made yet. *)
Definition blank (st : Process T) : Prop :=
  os_threads st = [] /\ threads_ (pool st) = ∅ /\ generateId_ st = 0.

(** The [i]-th thread created has the identifier [i], and the counter of
    identifiers stands at the number of threads. *)
Definition ids_in_order (st : Process T) : Prop :=
  generateId_ st = Z.of_nat (length (os_threads st))
  /\ forall i w, os_threads st !! i = Some w -> threadid w = Z.of_nat i.

(** [threads_] holds, under its own identifier, the record of every thread
    that has not returned, and nothing else. *)
Definition table_ok (st : Process T) : Prop :=
  (forall k th, threads_ (pool st) !! k = Some th ->
     th = {| threadId_ := k |} /\ 0 <= k
     /\ exists w, os_threads st !! Z.to_nat k = Some w /\ has_returned w = false)
  /\ (forall i w, os_threads st !! i = Some w -> has_returned w = false ->
        threads_ (pool st) !! Z.of_nat i = Some {| threadId_ := Z.of_nat i |}).

Definition is_setMode (op : Op T) : bool :=
  match op with CallSetMode _ => true | _ => false end.





(** The idle count is the current count less the threads running a task
    and less [m], the increments of the idle count that [start] still has
    to make; and the threads alive, with [x] still to be started, are no
    more than the current count says. *)
Definition census_upto (m x : Z) (st : Process T) : Prop :=
  idleThreadSize_ (pool st) + executing st = curThreadSize_ (pool st) - m
  /\ alive st + x <= curThreadSize_ (pool st).

(** ** [ThreadPool::start], statement by statement

    [start] takes no lock, and a thread it has started runs while [start]
    goes on.  Its second loop,
    [for (i = 0; i < initThreadSize_; i++) { threads_[i]->start(); idleThreadSize_++; }],
    is taken apart here: [LaunchNext] is [threads_[i]->start()],
    [CountIdle] is [idleThreadSize_++] with the [i++] that follows, and in
    between the threads started so far take steps. *)
Inductive StartOp : Type :=
  | LaunchNext
  | CountIdle
  | Meanwhile (i : nat) (a : WorkerAct).

(** Where [start] is: the process, the loop variable [i], the rounds still
    to go, and whether [threads_[i]->start()] of this round is done. *)
Record StartState : Type := {
  sproc : Process T;
  index : Z;
  todo : nat;
  launched : bool
}.

(** [start] up to its second loop: the flag, the two counts, and the first
    loop, in which no thread runs yet. *)
Definition start_begin (initThreadSize : Z) (st : Process T) : StartState :=
  let p := set_curThreadSize_ initThreadSize
             (set_initThreadSize_ initThreadSize
                (set_isPoolRunning_ true (pool st))) in
  {| sproc := create_threads (Z.to_nat initThreadSize) (set_pool p st);
     index := 0; todo := Z.to_nat initThreadSize; launched := false |}.

Definition start_step (o : StartOp) (s : StartState) : option StartState :=
  match o with
  | LaunchNext =>
      match launched s, todo s with
      | false, S _ =>
          t ← threads_ (pool (sproc s)) !! index s;
          Some {| sproc := Thread_start t (sproc s); index := index s;
                  todo := todo s; launched := true |}
      | _, _ => None
      end
  | CountIdle =>
      match launched s, todo s with
      | true, S k =>
          let p := pool (sproc s) in
          Some {| sproc := set_pool (set_idleThreadSize_ (wrap_int (idleThreadSize_ p + 1)) p)
                             (sproc s);
                  index := index s + 1; todo := k; launched := false |}
      | _, _ => None
      end
  | Meanwhile i a =>
      r ← step (Run i a) (sproc s);
      Some {| sproc := r.1; index := index s; todo := todo s; launched := launched s |}
  end.

Fixpoint start_run (os : list StartOp) (s : StartState) : option StartState :=
  match os with
  | [] => Some s
  | o :: os' => s1 ← start_step o s; start_run os' s1
  end.

(** What holds of the counts while [start] is in its second loop. *)
Definition start_inv (s : StartState) : Prop :=
  ints_ok (pool (sproc s))
  /\ Z.of_nat (todo s) <= INT32_MAX
  /\ (launched s = true -> (1 <= todo s)%nat)
  /\ census_upto (Z.of_nat (todo s))
        (Z.of_nat (todo s) - (if launched s then 1 else 0)) (sproc s).

End Census.

(** ** ThreadCppFinal/main.cpp *)

(** [int sum1(int a, int b) { return a + b; }]: the sum when it is an
    [int]; signed overflow is undefined ([None]). *)
Definition sum1 (a b : Z) : RunFn Z :=
  fun _ =>
    if bool_decide (INT32_MIN <= a + b <= INT32_MAX) then Some (Returns (a + b))
    else None.

(** [main] after [pool.start(4)], the first thread at the head of its loop. *)
Definition ThreadCppFinal_main_started : ThreadCppFinal.State Z :=
  match run [CallStart 4; Run 0 (Enter 0)] (fresh 0) with
  | Some (pr, _) => ThreadCppFinal.set_proc pr (ThreadCppFinal.initial 0)
  | None => ThreadCppFinal.initial 0
  end.

(** Two threads and two tasks, on ThreadCppFinal: [start(2)], then
    [submitTask(sum1, 1, 2)] and [submitTask(sum1, 3, 4)]; the first thread
    takes the first task, the second thread takes the second task and is
    the first to finish.  The two futures, the events of the queue and the
    state. *)
Definition second_task_finishes_first
  : option (nat * nat * list (Event (ThreadCppFinal.PackagedTask Z))
            * ThreadCppFinal.State Z) :=
  pr ← start 2 (fresh 0);
  a ← ThreadCppFinal.submitTask 0 false (sum1 1 2)
        (ThreadCppFinal.set_proc pr (ThreadCppFinal.initial 0));
  b ← ThreadCppFinal.submitTask 0 false (sum1 3 4) a.1.2;
  r ← run [Run 0 (Enter 0); Run 0 Lock; Run 1 (Enter 0); Run 1 Lock]
        (ThreadCppFinal.proc b.1.2);
  o ← ThreadCppFinal.run_task 1 0 1 (ThreadCppFinal.set_proc r.1 b.1.2);
  match o with
  | Returns st => Some (a.1.1, b.1.1, a.2 ++ b.2 ++ r.2, st)
  | Throws _ => None
  end.

(** ** Further concrete runs *)

(** A cached pool that has made a thread for a task before [start]. *)
Definition one_cached_thread : Process nat := (accept_task 7%nat cached_unstarted).1.

(** A task is submitted to a new pool, in fixed mode, before [start]. *)
Definition one_task_queued : Process nat := (accept_task 7%nat (fresh 0)).1.

(** A pool whose capacity was set to -1, and one whose capacity is 0. *)
Definition capacity_minus_one : Process nat :=
  set_pool (setTaskQueMaxThreshHold (-1) ThreadPool_new) (fresh 0).

Definition capacity_zero : Process nat :=
  set_pool (setTaskQueMaxThreshHold 0 ThreadPool_new) (fresh 0).

(** One thread, one task, and the shutdown up to the thread's last look at
    the queue. *)
Definition one_task_then_shutdown : list (Op nat) :=
  [CallStart 1; CallSubmitTask 7%nat false; Run 0 (Enter 0); Run 0 Lock;
   Run 0 (TaskReturns 1); DtorClearFlag].

(** A [run()] that returns 6 at once. *)
Definition returns_six : RunFn ThreadCpp.Any :=
  fun _ => Some (Returns (ThreadCpp.Any_uLong 6)).

(** A ThreadCpp process with one Task object, not yet submitted. *)
Definition one_Task : ThreadCpp.State :=
  (ThreadCpp.make_shared returns_six (ThreadCpp.initial 0)).2.

(** A ThreadCpp process with one valid [Result] nobody has written to. *)
Definition one_Result : ThreadCpp.State :=
  {| ThreadCpp.proc := fresh 0;
     ThreadCpp.tasks := [{| ThreadCpp.run := returns_six;
                            ThreadCpp.result_ := Some 0%nat |}];
     ThreadCpp.results := [{| ThreadCpp.isValid_ := true; ThreadCpp.task_ := Some 0%nat;
                              ThreadCpp.any_ := ThreadCpp.Any_null;
                              ThreadCpp.sem_ := ThreadCpp.Semaphore_new |}] |}.

(** * Properties *)

(** ** Machine integers *)

Lemma wrap_int_in_int (z : Z) : in_int (wrap_int z).
Proof.
  unfold in_int, wrap_int, INT32_MIN, INT32_MAX.
  pose proof (Z.mod_pos_bound (z + 2147483648) 4294967296 eq_refl). lia.
Qed.

Lemma wrap_int_id (z : Z) : in_int z -> wrap_int z = z.
Proof.
  unfold in_int, wrap_int, INT32_MIN, INT32_MAX. intros H.
  rewrite Z.mod_small; lia.
Qed.

Lemma to_size_t_id (z : Z) : 0 <= z -> in_int z -> to_size_t z = z.
Proof.
  unfold in_int, to_size_t, INT32_MAX. intros H0 H.
  rewrite Z.mod_small; lia.
Qed.

(** ** The setters *)

Section Setters.

Context {T : Type}.
Implicit Types (p : ThreadPool T) (w : Worker T).

(** C7 (as amended).  Once the running flag is true the mode, queue-capacity
    and worker-ceiling setters return the pool as it was.  Before start
    [setMode] and [setTaskQueMaxThreshHold] store their argument, while
    [setThreadSizeThreshHold] stores it only if the pool is in cached mode
    and leaves the ceiling alone in fixed mode. *)
Theorem setters_guarded p (mode : PoolMode) (capacity ceiling : Z) :
  (isPoolRunning_ p = true ->
     setMode mode p = p
     /\ setTaskQueMaxThreshHold capacity p = p
     /\ setThreadSizeThreshHold ceiling p = p)
  /\ (isPoolRunning_ p = false ->
        setMode mode p = set_poolMode_ mode p
        /\ poolMode_ (setMode mode p) = mode
        /\ setTaskQueMaxThreshHold capacity p = set_taskQueMaxThreshHold_ capacity p
        /\ taskQueMaxThreshHold_ (setTaskQueMaxThreshHold capacity p) = capacity
        /\ (poolMode_ p = MODE_CACHED ->
              setThreadSizeThreshHold ceiling p = set_threadSizeThreshHold_ ceiling p
              /\ threadSizeThreshHold_ (setThreadSizeThreshHold ceiling p) = ceiling)
        /\ (poolMode_ p = MODE_FIXED -> setThreadSizeThreshHold ceiling p = p)).
Proof.
  unfold setMode, setTaskQueMaxThreshHold, setThreadSizeThreshHold, checkRunningState.
  split; intros ->; [done|].
  do 4 (split; [reflexivity|]).
  split; intros ->; simpl; auto.
Qed.

(** C10.  [setInitThreadSize size] stores [size] in [initThreadSize_]
    whatever the running flag says, and touches nothing else.  The
    idle-timeout test of a worker reads that field: on a running pool with
    an empty queue, a worker whose timed wait ran out after 60 seconds of
    idleness returns exactly when [size] is below the current count. *)
Theorem setInitThreadSize_unguarded p (size : Z) :
  let p' := setInitThreadSize size p in
  initThreadSize_ p' = size
  /\ isPoolRunning_ p' = isPoolRunning_ p
  /\ poolMode_ p' = poolMode_ p
  /\ taskQueMaxThreshHold_ p' = taskQueMaxThreshHold_ p
  /\ threadSizeThreshHold_ p' = threadSizeThreshHold_ p
  /\ curThreadSize_ p' = curThreadSize_ p
  /\ idleThreadSize_ p' = idleThreadSize_ p
  /\ taskSize_ p' = taskSize_ p
  /\ taskQue_ p' = taskQue_ p
  /\ threads_ p' = threads_ p
  /\ forall w now,
       isPoolRunning_ p = true -> taskQue_ p = [] ->
       THREAD_MAX_IDLE_TIME <= seconds_of (now - lastTime w) ->
       (pc (after_wait_for timeout now w p').1.2 = Returned
        <-> size < curThreadSize_ p).
Proof.
  cbv zeta. repeat split; try reflexivity.
  - unfold after_wait_for. simpl.
    destruct (THREAD_MAX_IDLE_TIME <=? _) eqn:Hd; [|lia].
    destruct (size <? curThreadSize_ p) eqn:Hc; simpl.
    + lia.
    + unfold while_taskQue_empty. simpl. rewrite H0, H. simpl.
      destruct (decide _); simpl; discriminate.
  - intros Hlt. unfold after_wait_for. simpl.
    destruct (THREAD_MAX_IDLE_TIME <=? _) eqn:Hd; [|lia].
    destruct (size <? curThreadSize_ p) eqn:Hc; [reflexivity | lia].
Qed.

End Setters.

(** ** The steps, case by case *)

Section Steps.

Context {T : Type}.
Implicit Types (p : ThreadPool T) (w : Worker T) (st : Process T) (op : Op T).

Lemma while_taskQue_empty_effect w p :
  pool_effect w p (while_taskQue_empty w p).1.1 (while_taskQue_empty w p).1.2
    (while_taskQue_empty w p).2.
Proof.
  unfold while_taskQue_empty.
  destruct (taskQue_ p) as [|task rest] eqn:Hq.
  - destruct (isPoolRunning_ p) eqn:Hr; simpl.
    + destruct (decide (poolMode_ p = MODE_CACHED)) as [Hm|Hm]; simpl;
        apply eff_block; auto; destruct (decide _); congruence.
    + by apply eff_exit.
  - simpl. by apply eff_pop.
Qed.

Lemma threadFunc_step_effect a w p p' w' evs :
  threadFunc_step a w p = Some (p', w', evs) -> pool_effect w p p' w' evs.
Proof.
  unfold threadFunc_step. intros H.
  destruct a, (pc w) eqn:Hpc; simplify_eq.
  - by apply eff_enter.
  - pose proof (while_taskQue_empty_effect w p) as E. by rewrite H in E.
  - unfold after_wait_for in H. destruct status.
    + pose proof (while_taskQue_empty_effect w p) as E. by rewrite H in E.
    + destruct (THREAD_MAX_IDLE_TIME <=? _) eqn:Hd; simpl in H.
      * destruct (initThreadSize_ p <? curThreadSize_ p) eqn:Hc; simpl in H.
        -- simplify_eq. apply eff_idle_exit with (now := now); auto; lia.
        -- pose proof (while_taskQue_empty_effect w p) as E. by rewrite H in E.
      * pose proof (while_taskQue_empty_effect w p) as E. by rewrite H in E.
  - pose proof (while_taskQue_empty_effect w p) as E. by rewrite H in E.
  - unfold after_task in H. simplify_eq. by eapply eff_task_done.
Qed.

(** What a call of [submitTask] can do to the process. *)
Lemma accept_task_cases sp st st' evs :
  accept_task sp st = (st', evs) ->
  let p1 := set_taskSize_ (wrap_int (taskSize_ (pool st) + 1))
              (set_taskQue_ (taskQue_ (pool st) ++ [sp]) (pool st)) in
  evs = [EvEmplace sp; EvNotifyAll notEmpty_]
  /\ ((needs_new_thread p1 = false /\ st' = set_pool p1 st)
      \/ (needs_new_thread p1 = true
          /\ (exists id, os_threads st' = os_threads st
                 ++ [{| threadid := id; lastTime := 0; pc := Begin |}])
          /\ generateId_ st' = wrap_int (generateId_ st + 1)
          /\ pool st' =
               set_idleThreadSize_ (wrap_int (idleThreadSize_ p1 + 1))
                 (set_curThreadSize_ (wrap_int (curThreadSize_ p1 + 1))
                    (set_threads_ (emplace (generateId_ st) {| threadId_ := generateId_ st |}
                                     (threads_ p1)) p1)))).
Proof.
  unfold accept_task. cbv zeta.
  destruct (needs_new_thread _) eqn:Hn; simpl; intros H; simplify_eq.
  - split; [done|]. right. split; [done|]. split; [|done]. eauto.
  - split; [done|]. by left.
Qed.

(** [start]: the first loop only fills [threads_] and moves the counter of
    identifiers, the second only starts threads and counts them as idle. *)
Lemma create_threads_pool n st :
  exists ths,
    pool (create_threads n st) = set_threads_ ths (pool st)
    /\ os_threads (create_threads n st) = os_threads st.
Proof.
  revert st. induction n as [|n IH]; intros st; simpl.
  - exists (threads_ (pool st)). by destruct st as [[] ? ?].
  - edestruct IH as (ths & E1 & E2). exists ths. rewrite E1, E2. done.
Qed.

Lemma start_threads_pool n i st st' :
  start_threads n i st = Some st' ->
  exists idle,
    pool st' = set_idleThreadSize_ idle (pool st)
    /\ (in_int (idleThreadSize_ (pool st)) -> in_int idle)
    /\ length (os_threads st') = (length (os_threads st) + n)%nat.
Proof.
  revert i st. induction n as [|n IH]; intros i st; simpl.
  - intros ?; simplify_eq. exists (idleThreadSize_ (pool st')).
    split; [by destruct st' as [[] ? ?]|]. split; [done|lia].
  - destruct (threads_ (pool st) !! i) as [t|]; [|done]. intros H.
    apply IH in H as (idle & Hp & Hi & Hl). simpl in *. exists idle. split; [|split].
    + rewrite Hp. done.
    + intros _. apply Hi, wrap_int_in_int.
    + rewrite Hl, length_app. simpl. lia.
Qed.

Lemma start_pool n st st' :
  start n st = Some st' ->
  exists ths idle,
    pool st' =
      set_idleThreadSize_ idle
        (set_threads_ ths
           (set_curThreadSize_ n (set_initThreadSize_ n (set_isPoolRunning_ true (pool st)))))
    /\ (in_int (idleThreadSize_ (pool st)) -> in_int idle)
    /\ length (os_threads st') = (length (os_threads st) + Z.to_nat n)%nat.
Proof.
  unfold start. intros H.
  apply start_threads_pool in H as (idle & Hp & Hi & Hl).
  match type of Hp with context [create_threads ?k ?s] =>
    destruct (create_threads_pool k s) as (ths & Hc & Ho) end.
  rewrite Hc in Hp, Hi. rewrite Ho in Hl. simpl in *.
  exists ths, idle. done.
Qed.

End Steps.

(** ** Invariants of the pool *)

(** Splits a hypothesis [step op st = Some (st', evs)] into the cases of
    the operation; a thread's step comes with its [pool_effect]. *)
Ltac step_cases H :=
  unfold step in H;
  match type of H with
  | context [match ?op with CallSetMode _ => _ | _ => _ end] => destruct op
  end;
  simpl in H;
  [ simplify_eq | simplify_eq | simplify_eq | simplify_eq
  | let Hs := fresh "Hstart" in
    match type of H with context [start ?n ?s] =>
      destruct (start n s) eqn:Hs; simpl in H; [|discriminate] end;
    simplify_eq
  | let Ha := fresh "Hadm" in
    match type of H with context [submitTask_admission ?b ?sp ?s] =>
      destruct (submitTask_admission b sp s) as [[[? ?] ?]|] eqn:Ha; simpl in H; [|discriminate] end;
    simplify_eq
  | simplify_eq | simplify_eq
  | let Hw := fresh "Hw" in let Hf := fresh "Hf" in
    match type of H with context [os_threads ?s !! ?i] =>
      destruct (os_threads s !! i) as [?w|] eqn:Hw; simpl in H; [|discriminate] end;
    match type of H with context [threadFunc_step ?a ?w ?p] =>
      destruct (threadFunc_step a w p) as [[[? ?] ?]|] eqn:Hf; simpl in H; [|discriminate] end;
    simplify_eq; apply threadFunc_step_effect in Hf ].

Section Invariants.

Context {T : Type}.
Implicit Types (p : ThreadPool T) (w : Worker T) (st : Process T) (op : Op T).

Lemma admission_cases timed_out sp st b st' evs :
  submitTask_admission timed_out sp st = Some (b, st', evs) ->
  (b = false /\ timed_out = true /\ queue_not_full (pool st) = false
   /\ st' = st /\ evs = [])
  \/ (b = true /\ queue_not_full (pool st) = true /\ accept_task sp st = (st', evs)).
Proof.
  unfold submitTask_admission, notFull_wait_for.
  destruct (queue_not_full (pool st)).
  - destruct (accept_task sp st) as [s e]. intros ?; simplify_eq. right. done.
  - destruct timed_out; intros ?; simplify_eq. left. done.
Qed.

Lemma step_ints_ok op st st' evs :
  ints_ok (pool st) -> args_ok op -> step op st = Some (st', evs) ->
  ints_ok (pool st').
Proof.
  unfold ints_ok. intros (Hi & Ht & Hc & Hd & Hs & Hq) Hop H.
  step_cases H; simpl in *.
  - unfold setMode. destruct (checkRunningState _); simpl; auto 10.
  - auto 10.
  - unfold setTaskQueMaxThreshHold. destruct (checkRunningState _); simpl; auto 10.
  - unfold setThreadSizeThreshHold. destruct (checkRunningState _); simpl; auto 10.
    destruct (decide _); simpl; auto 10.
  - apply start_pool in Hstart as (ths & idle & -> & Hidle & _). simpl. auto 10.
  - apply admission_cases in Hadm as [(-> & _ & _ & -> & ->)|(-> & Hfull & Hacc)]; [auto 10|].
    apply accept_task_cases in Hacc as (-> & [(_ & ->)|(_ & _ & _ & ->)]); simpl;
      auto 10 using wrap_int_in_int.
  - auto 10.
  - auto 10.
  - destruct Hf; simpl; auto 10 using wrap_int_in_int.
Qed.

(** Submissions respect the ceiling, retirements do not wrap. *)
Lemma step_ceiling_kept op st st' evs :
  ints_ok (pool st) ->
  is_start op = false -> is_setThreadSizeThreshHold op = false ->
  step op st = Some (st', evs) ->
  curThreadSize_ (pool st) <= threadSizeThreshHold_ (pool st) ->
  curThreadSize_ (pool st') <= threadSizeThreshHold_ (pool st').
Proof.
  unfold ints_ok, in_int. intros (Hi & Ht & Hc & Hd & Hs & Hq) Hn1 Hn2 H Hle.
  step_cases H; simpl in *; try done.
  - unfold setMode. by destruct (checkRunningState _).
  - unfold setTaskQueMaxThreshHold. by destruct (checkRunningState _).
  - apply admission_cases in Hadm as [(-> & _ & _ & -> & ->)|(-> & Hfull & Hacc)]; [done|].
    apply accept_task_cases in Hacc as (-> & [(_ & ->)|(Hn & _ & _ & ->)]); simpl; [done|].
    unfold needs_new_thread in Hn. simpl in Hn.
    apply andb_true_iff in Hn as [_ Hn%Z.ltb_lt].
    rewrite wrap_int_id; unfold in_int; lia.
  - destruct Hf; simpl; try done.
    rewrite wrap_int_id; unfold in_int; lia.
Qed.

(** Retirement stops at the initial count, [start] sets the two equal. *)
Lemma step_floor_kept op st st' evs :
  ints_ok (pool st) ->
  is_setInitThreadSize op = false ->
  step op st = Some (st', evs) ->
  initThreadSize_ (pool st) <= curThreadSize_ (pool st) ->
  initThreadSize_ (pool st') <= curThreadSize_ (pool st').
Proof.
  unfold ints_ok, in_int. intros (Hi & Ht & Hc & Hd & Hs & Hq) Hn H Hle.
  step_cases H; simpl in *; try done.
  - unfold setMode. by destruct (checkRunningState _).
  - unfold setTaskQueMaxThreshHold. by destruct (checkRunningState _).
  - unfold setThreadSizeThreshHold. destruct (checkRunningState _); [done|].
    by destruct (decide _).
  - apply start_pool in Hstart as (ths & idle & -> & _ & _). simpl. lia.
  - apply admission_cases in Hadm as [(-> & _ & _ & -> & ->)|(-> & Hfull & Hacc)]; [done|].
    apply accept_task_cases in Hacc as (-> & [(_ & ->)|(Hn' & _ & _ & ->)]); simpl; [done|].
    unfold needs_new_thread in Hn'. simpl in Hn'.
    apply andb_true_iff in Hn' as [_ Hn'%Z.ltb_lt].
    rewrite wrap_int_id; unfold in_int; lia.
  - destruct Hf; simpl; try done.
    rewrite wrap_int_id; unfold in_int; lia.
Qed.

Lemma queue_not_full_lt p :
  0 <= taskQueMaxThreshHold_ p <= INT32_MAX ->
  queue_not_full p = true -> queue_size p < taskQueMaxThreshHold_ p.
Proof.
  unfold queue_not_full, queue_size. intros Hc H%Z.ltb_lt.
  rewrite to_size_t_id in H; unfold in_int, INT32_MIN; lia.
Qed.

Lemma step_counter_ok op st st' evs :
  args_ok op -> capacity_ok op ->
  step op st = Some (st', evs) ->
  counter_ok (pool st) -> counter_ok (pool st').
Proof.
  unfold counter_ok, queue_size. intros Ha Hcap H (Hs & Hl & Hc).
  step_cases H; simpl in *; try done.
  - unfold setMode. by destruct (checkRunningState _).
  - unfold setTaskQueMaxThreshHold. destruct (checkRunningState _); [done|]. simpl.
    unfold in_int in Ha. lia.
  - unfold setThreadSizeThreshHold. destruct (checkRunningState _); [done|].
    by destruct (decide _).
  - by apply start_pool in Hstart as (ths & idle & -> & _ & _).
  - apply admission_cases in Hadm as [(-> & _ & _ & -> & ->)|(-> & Hfull & Hacc)]; [done|].
    apply queue_not_full_lt in Hfull; [|done]. unfold queue_size in Hfull.
    assert (wrap_int (taskSize_ (pool st) + 1) = taskSize_ (pool st) + 1) as Hw.
    { apply wrap_int_id. unfold in_int, INT32_MIN, INT32_MAX in *. lia. }
    apply accept_task_cases in Hacc as (-> & [(_ & ->)|(_ & _ & _ & ->)]); simpl;
      rewrite Hw, length_app; simpl; lia.
  - destruct Hf; simpl; try done.
    rewrite H in Hs, Hl. simpl in Hs, Hl.
    rewrite wrap_int_id; unfold in_int, INT32_MIN, INT32_MAX in *; lia.
Qed.

(** Only a capacity setter that takes effect can put the ceiling below the
    length of the queue. *)
Lemma step_bound_kept op st st' evs :
  in_int (taskQueMaxThreshHold_ (pool st)) ->
  isPoolRunning_ (pool st) = true \/ is_setTaskQueMaxThreshHold op = false ->
  step op st = Some (st', evs) ->
  queue_size (pool st) <= taskQueMaxThreshHold_ (pool st) ->
  queue_size (pool st') <= taskQueMaxThreshHold_ (pool st').
Proof.
  unfold queue_size. intros Hc Hop H Hle.
  step_cases H; simpl in *; try done.
  - unfold setMode. by destruct (checkRunningState _).
  - unfold setTaskQueMaxThreshHold, checkRunningState.
    destruct Hop as [->|?]; [done|discriminate].
  - unfold setThreadSizeThreshHold. destruct (checkRunningState _); [done|].
    by destruct (decide _).
  - by apply start_pool in Hstart as (ths & idle & -> & _ & _).
  - apply admission_cases in Hadm as [(-> & _ & _ & -> & ->)|(-> & Hfull & Hacc)]; [done|].
    apply queue_not_full_lt in Hfull; [|unfold in_int in Hc; lia].
    unfold queue_size in Hfull.
    apply accept_task_cases in Hacc as (-> & [(_ & ->)|(_ & _ & _ & ->)]); simpl;
      rewrite length_app; simpl; lia.
  - destruct Hf; simpl; try done.
    rewrite H in Hle. simpl in Hle. lia.
Qed.

(** The queue only grows at the back and shrinks at the front. *)
Lemma step_fifo op st st' evs :
  step op st = Some (st', evs) ->
  taskQue_ (pool st) ++ emplaced evs = popped evs ++ taskQue_ (pool st').
Proof.
  intros H.
  step_cases H; simpl in *; rewrite ?app_nil_r; try done.
  - unfold setMode. by destruct (checkRunningState _).
  - unfold setTaskQueMaxThreshHold. by destruct (checkRunningState _).
  - unfold setThreadSizeThreshHold. destruct (checkRunningState _); [done|].
    by destruct (decide _).
  - by apply start_pool in Hstart as (ths & idle & -> & _ & _).
  - apply admission_cases in Hadm as [(-> & _ & _ & -> & ->)|(-> & Hfull & Hacc)].
    + simpl. by rewrite app_nil_r.
    + apply accept_task_cases in Hacc as (-> & [(_ & ->)|(_ & _ & _ & ->)]);
        reflexivity.
  - destruct Hf; simpl; rewrite ?app_nil_r; try done.
    rewrite H. destruct (bool_decide _); simpl; by rewrite app_nil_r.
Qed.

(** From steps to schedules. *)
Lemma run_invariant (I : Process T -> Prop) (P : Op T -> Prop) :
  (forall op st st' evs, P op -> I st -> step op st = Some (st', evs) -> I st') ->
  forall ops st st' evs,
    Forall P ops -> I st -> run ops st = Some (st', evs) -> I st'.
Proof.
  intros Hstep ops. induction ops as [|op ops IH]; simpl; intros st st' evs HP HI H.
  - by simplify_eq.
  - apply Forall_cons in HP as [Hop HP].
    destruct (step op st) as [[st1 evs1]|] eqn:H1; [|done].
    destruct (run ops st1) as [[st2 evs2]|] eqn:H2; [|done].
    simplify_eq. apply (IH st1 st' evs2 HP); [|done].
    by apply (Hstep op st st1 evs1).
Qed.

Lemma run_fifo ops st st' evs :
  run ops st = Some (st', evs) ->
  taskQue_ (pool st) ++ emplaced evs = popped evs ++ taskQue_ (pool st').
Proof.
  revert st st' evs. induction ops as [|op ops IH]; simpl; intros st st' evs H.
  - simplify_eq. simpl. by rewrite app_nil_r.
  - destruct (step op st) as [[st1 evs1]|] eqn:H1; [|done].
    destruct (run ops st1) as [[st2 evs2]|] eqn:H2; [|done].
    simplify_eq. apply step_fifo in H1. apply IH in H2.
    unfold emplaced, popped in *. rewrite !omap_app.
    rewrite app_assoc, H1, <- app_assoc, H2, app_assoc. done.
Qed.

Lemma fresh_counter_ok g : counter_ok (pool (@fresh T g)).
Proof. unfold counter_ok, queue_size. simpl. vm_compute. intuition discriminate. Qed.

Lemma seconds_of_ge (d : Z) :
  THREAD_MAX_IDLE_TIME <= seconds_of d <-> THREAD_MAX_IDLE_TIME * ticks_per_second <= d.
Proof.
  unfold seconds_of, THREAD_MAX_IDLE_TIME, ticks_per_second.
  pose proof (Z.quot_rem' d 1000000000) as E.
  destruct (Z_le_gt_dec 0 d) as [Hd|Hd].
  - pose proof (Z.rem_bound_pos d 1000000000 Hd eq_refl). lia.
  - pose proof (Z.rem_bound_pos_neg d 1000000000 eq_refl ltac:(lia)). lia.
Qed.

End Invariants.

(** ** The controller and the worker loop *)

Section PoolClaims.

Context {T : Type}.
Implicit Types (p : ThreadPool T) (w : Worker T) (st : Process T) (op : Op T).

(** C3 (as amended).  A submission that is admitted creates exactly one
    more thread, and adds one to the current and to the idle count, if and
    only if the pool is in cached mode, the queued-task count (after the
    enqueue) exceeds the idle count and the current count is below the
    ceiling; otherwise it creates none and leaves both counts alone.
    Consequently a submission never takes the current count above the
    ceiling, and neither does anything that follows as long as the pool is
    not started again and the ceiling is not set again: [start n] itself
    stores [n] without looking at the ceiling. *)
Theorem submit_spawns_within_ceiling
    st (timed_out : bool) (sp : T) st1 evs1 (ops : list (Op T)) st2 evs2 :
  ints_ok (pool st) ->
  submitTask_admission timed_out sp st = Some (true, st1, evs1) ->
  Forall args_ok ops ->
  Forall (fun op => is_start op = false /\ is_setThreadSizeThreshHold op = false) ops ->
  run ops st1 = Some (st2, evs2) ->
  let p := pool st in
  let p1 := pool st1 in
  let wanted := poolMode_ p = MODE_CACHED
                /\ idleThreadSize_ p < taskSize_ p1
                /\ curThreadSize_ p < threadSizeThreshHold_ p in
  (wanted ->
     (exists w, os_threads st1 = os_threads st ++ [w] /\ pc w = Begin)
     /\ curThreadSize_ p1 = curThreadSize_ p + 1
     /\ idleThreadSize_ p1 = idleThreadSize_ p + 1)
  /\ (~ wanted ->
        os_threads st1 = os_threads st
        /\ curThreadSize_ p1 = curThreadSize_ p
        /\ idleThreadSize_ p1 = idleThreadSize_ p)
  /\ (curThreadSize_ p <= threadSizeThreshHold_ p ->
        curThreadSize_ p1 <= threadSizeThreshHold_ p1
        /\ curThreadSize_ (pool st2) <= threadSizeThreshHold_ (pool st2)).
Proof.
  intros Hok Hadm Hargs Hops Hrun. cbv zeta.
  assert (ints_ok (pool st1)) as Hok1.
  { apply (step_ints_ok (CallSubmitTask sp timed_out) st st1 evs1); [done..|].
    simpl. by rewrite Hadm. }
  assert (curThreadSize_ (pool st) <= threadSizeThreshHold_ (pool st) ->
          curThreadSize_ (pool st1) <= threadSizeThreshHold_ (pool st1)) as Hkeep.
  { apply (step_ceiling_kept (CallSubmitTask sp timed_out) st st1 evs1); [done..|].
    simpl. by rewrite Hadm. }
  apply admission_cases in Hadm as [(? & _)|(_ & Hfull & Hacc)]; [done|].
  apply accept_task_cases in Hacc as (-> & Hcases).
  destruct Hok as (Hi & Ht & Hc & Hd & Hs & Hq). unfold in_int in *.
  pose proof (wrap_int_in_int (taskSize_ (pool st) + 1)) as Hts. unfold in_int in Hts.
  split; [|split].
  - intros (Hm & Hidle & Hcur).
    destruct Hcases as [(Hn & ->)|(Hn & (id & Hth) & _ & Hp)].
    + exfalso. unfold needs_new_thread in Hn. simpl in *.
      rewrite bool_decide_eq_true_2 in Hn by done.
      apply andb_false_iff in Hn as [Hn|Hn]; simpl in Hn; lia.
    + rewrite Hp in *. simpl in *. split; [eauto|].
      rewrite !wrap_int_id; unfold in_int; lia.
  - intros Hnot.
    destruct Hcases as [(Hn & ->)|(Hn & _ & _ & Hp)]; [done|].
    exfalso. apply Hnot. unfold needs_new_thread in Hn. rewrite Hp. simpl in *.
    apply andb_true_iff in Hn as [[Hm%bool_decide_eq_true Hn1%Z.ltb_lt]%andb_true_iff
                                    Hn2%Z.ltb_lt].
    done.
  - intros Hle. split; [by apply Hkeep|].
    apply (run_invariant
             (fun s => ints_ok (pool s)
                       /\ curThreadSize_ (pool s) <= threadSizeThreshHold_ (pool s))
             (fun op => args_ok op /\ is_start op = false
                        /\ is_setThreadSizeThreshHold op = false))
      with (ops := ops) (st := st1) (st' := st2) (evs := evs2).
    + intros op s s' e (Ha & Hn1 & Hn2) (Hk & Hl) Hstep. split.
      * by eapply step_ints_ok.
      * by eapply step_ceiling_kept.
    + apply Forall_and. split; [done|]. done.
    + split; [done|]. by apply Hkeep.
    + done.
Qed.

(** What [while_taskQue_empty] never does: return silently. *)
Lemma while_taskQue_empty_not_silent w p :
  (while_taskQue_empty w p).1.2 = set_pc Returned w ->
  EvNotifyAll exitCond_ ∈ (while_taskQue_empty w p).2.
Proof.
  unfold while_taskQue_empty.
  destruct (taskQue_ p); [|discriminate].
  destruct (isPoolRunning_ p); simpl.
  - destruct (decide _); discriminate.
  - intros _. apply list_elem_of_singleton. done.
Qed.

(** C4 (as amended).  A thread comes back from its timed wait and returns
    without signalling [exitCond_] (the idle-timeout exit) exactly when the
    wait timed out, at least 60 seconds have passed since [lastTime] and
    the current count is above the initial count; it then erases its
    record, takes one from the current count and from the idle count, and
    leaves the current count at or above the initial count.  From [start]
    on the current count stays at or above the initial count along every
    schedule in which [setInitThreadSize] is not called: that setter is not
    guarded and can raise the initial count past the current one, and a
    pool that was never started has the counts 4 and 0. *)
Theorem idle_retirement_stops_at_initial_count :
  (forall st (i : nat) w (status : cv_status) (now : Z) st1 evs,
     ints_ok (pool st) ->
     os_threads st !! i = Some w -> pc w = InWaitFor ->
     step (Run i (WaitForReturns status now)) st = Some (st1, evs) ->
     let p := pool st in
     let p1 := pool st1 in
     let expired := status = timeout
                    /\ THREAD_MAX_IDLE_TIME * ticks_per_second <= now - lastTime w
                    /\ initThreadSize_ p < curThreadSize_ p in
     ((os_threads st1 !! i = Some (set_pc Returned w)
       /\ EvNotifyAll exitCond_ ∉ evs) <-> expired)
     /\ (expired ->
           threads_ p1 = delete (threadid w) (threads_ p)
           /\ curThreadSize_ p1 = curThreadSize_ p - 1
           /\ idleThreadSize_ p1 = wrap_int (idleThreadSize_ p - 1)
           /\ initThreadSize_ p1 <= curThreadSize_ p1))
  /\ (forall st0 (n : Z) st (ops : list (Op T)) st' evs,
        ints_ok (pool st0) -> in_int n ->
        start n st0 = Some st ->
        Forall args_ok ops ->
        Forall (fun op => is_setInitThreadSize op = false) ops ->
        run ops st = Some (st', evs) ->
        initThreadSize_ (pool st') <= curThreadSize_ (pool st')).
Proof.
  split.
  - intros st i w status now st1 evs Hok Hw Hpc Hstep. cbv zeta.
    assert (i < length (os_threads st))%nat as Hi by (by eapply lookup_lt_Some).
    unfold step in Hstep. rewrite Hw in Hstep. simpl in Hstep.
    unfold threadFunc_step in Hstep. rewrite Hpc in Hstep. simpl in Hstep.
    unfold after_wait_for in Hstep.
    destruct Hok as (Hin & _ & Hcur & _). unfold in_int in *.
    destruct status.
    { (* no_timeout *)
      simplify_eq. split; [|by intros (? & _)]. split; [|by intros (? & _)].
      simpl. rewrite list_lookup_insert_eq by done.
      intros [Heq Hno]. exfalso. apply Hno.
      apply while_taskQue_empty_not_silent. congruence. }
    destruct (THREAD_MAX_IDLE_TIME <=? seconds_of (now - lastTime w)) eqn:Hd;
      [apply Z.leb_le, seconds_of_ge in Hd | apply Z.leb_gt in Hd];
      (destruct (initThreadSize_ (pool st) <? curThreadSize_ (pool st)) eqn:Hc;
       [apply Z.ltb_lt in Hc | apply Z.ltb_ge in Hc]); simpl in Hstep; simplify_eq.
    + (* expired *)
      simpl. rewrite list_lookup_insert_eq by done.
      rewrite wrap_int_id by (unfold in_int; lia).
      split; [split; [intros _; done|]|].
      * intros _. split; [done|]. apply not_elem_of_nil.
      * intros _. repeat split; try done. lia.
    + split; [|intros (_ & _ & ?); lia]. split; [|intros (_ & _ & ?); lia].
      simpl. rewrite list_lookup_insert_eq by done.
      intros [Heq Hno]. exfalso. apply Hno.
      apply while_taskQue_empty_not_silent. congruence.
    + assert (~ THREAD_MAX_IDLE_TIME * ticks_per_second <= now - lastTime w) as Hd'.
      { rewrite <- seconds_of_ge. lia. }
      split; [|by intros (_ & ? & _)]. split; [|by intros (_ & ? & _)].
      simpl. rewrite list_lookup_insert_eq by done.
      intros [Heq Hno]. exfalso. apply Hno.
      apply while_taskQue_empty_not_silent. congruence.
    + assert (~ THREAD_MAX_IDLE_TIME * ticks_per_second <= now - lastTime w) as Hd'.
      { rewrite <- seconds_of_ge. lia. }
      split; [|by intros (_ & ? & _)]. split; [|by intros (_ & ? & _)].
      simpl. rewrite list_lookup_insert_eq by done.
      intros [Heq Hno]. exfalso. apply Hno.
      apply while_taskQue_empty_not_silent. congruence.
  - intros st0 n st ops st' evs Hok Hn Hstart Hargs Hops Hrun.
    assert (ints_ok (pool st)) as Hok1.
    { apply (step_ints_ok (CallStart n) st0 st []); [done..|].
      simpl. by rewrite Hstart. }
    apply start_pool in Hstart as (ths & idle & Hp & _ & _).
    apply (run_invariant
             (fun s => ints_ok (pool s)
                       /\ initThreadSize_ (pool s) <= curThreadSize_ (pool s))
             (fun op => args_ok op /\ is_setInitThreadSize op = false))
      with (ops := ops) (st := st) (st' := st') (evs := evs).
    + intros op s s' e (Ha & Hn1) (Hk & Hl) Hstep. split.
      * by eapply step_ints_ok.
      * by eapply step_floor_kept.
    + by apply Forall_and.
    + split; [done|]. rewrite Hp. simpl. lia.
    + done.
Qed.

(** C5 (as amended).  Along every schedule from a new pool in which no
    negative capacity is configured, the queued-task counter equals the
    length of the queue at every point between two steps: the enqueue adds
    one together with the append, the dequeue takes one together with the
    removal.  The length stays at or below the capacity ceiling from any
    point where it is, as long as [setTaskQueMaxThreshHold] is not called:
    tasks can be submitted before [start], and the setter, which takes
    effect until [start], can then put the ceiling below the length. *)
Theorem counter_follows_queue
    (g : Z) (ops1 : list (Op T)) st1 evs1 (ops2 : list (Op T)) st2 evs2 :
  Forall args_ok ops1 -> Forall capacity_ok ops1 ->
  run ops1 (fresh g) = Some (st1, evs1) ->
  Forall args_ok ops2 ->
  Forall (fun op => is_setTaskQueMaxThreshHold op = false) ops2 ->
  run ops2 st1 = Some (st2, evs2) ->
  taskSize_ (pool st1) = queue_size (pool st1)
  /\ taskSize_ (pool st2) = queue_size (pool st2)
  /\ (queue_size (pool st1) <= taskQueMaxThreshHold_ (pool st1) ->
        queue_size (pool st2) <= taskQueMaxThreshHold_ (pool st2)).
Proof.
  intros Ha1 Hc1 Hrun1 Ha2 Hn2 Hrun2.
  assert (counter_ok (pool st1)) as Hk1.
  { apply (run_invariant (fun s => counter_ok (pool s))
             (fun op => args_ok op /\ capacity_ok op))
      with (ops := ops1) (st := fresh g) (st' := st1) (evs := evs1).
    - intros op s s' e [? ?] ? ?. by eapply step_counter_ok.
    - by apply Forall_and.
    - apply fresh_counter_ok.
    - done. }
  assert (forall op : Op T, is_setTaskQueMaxThreshHold op = false -> capacity_ok op) as Hcap.
  { by intros []. }
  assert (counter_ok (pool st2)) as Hk2.
  { apply (run_invariant (fun s => counter_ok (pool s))
             (fun op => args_ok op /\ is_setTaskQueMaxThreshHold op = false))
      with (ops := ops2) (st := st1) (st' := st2) (evs := evs2).
    - intros op s s' e [? ?] ? ?. eapply step_counter_ok; eauto.
    - by apply Forall_and.
    - done.
    - done. }
  split; [apply Hk1|]. split; [apply Hk2|].
  intros Hle.
  apply (run_invariant
           (fun s => counter_ok (pool s)
                     /\ queue_size (pool s) <= taskQueMaxThreshHold_ (pool s))
           (fun op => args_ok op /\ is_setTaskQueMaxThreshHold op = false))
    with (ops := ops2) (st := st1) (st' := st2) (evs := evs2).
  - intros op s s' e [? ?] [Hk ?] ?. split.
    + eapply step_counter_ok; eauto.
    + eapply step_bound_kept; eauto.
      destruct Hk as (_ & _ & ?). unfold in_int, INT32_MIN. lia.
  - by apply Forall_and.
  - done.
  - done.
Qed.

(** C8, as amended.  The queue is first in, first out.  Along every
    schedule the tasks put into the queue, in order, are the tasks taken
    out, in order, followed by what is still queued: no task overtakes
    another in the queue.  An admitted submission appends its task at the
    back; a thread that takes a task takes the one at the front, and that
    is the task it goes on to execute, after it has given up the mutex.
    Nothing is said about the order in which the threads then run and
    finish their tasks. *)
Theorem queue_is_fifo :
  (forall (ops : list (Op T)) st st' evs,
     run ops st = Some (st', evs) ->
     taskQue_ (pool st) ++ emplaced evs = popped evs ++ taskQue_ (pool st'))
  /\ (forall (timed_out : bool) (sp : T) st st' evs,
        submitTask_admission timed_out sp st = Some (true, st', evs) ->
        taskQue_ (pool st') = taskQue_ (pool st) ++ [sp] /\ emplaced evs = [sp])
  /\ (forall (i : nat) (a : WorkerAct) st st' evs (t : T),
        step (Run i a) st = Some (st', evs) ->
        t ∈ popped evs ->
        popped evs = [t]
        /\ taskQue_ (pool st) = t :: taskQue_ (pool st')
        /\ exists w', os_threads st' !! i = Some w' /\ pc w' = Exec t).
Proof.
  split; [|split].
  - apply run_fifo.
  - intros timed_out sp st st' evs Hadm.
    apply admission_cases in Hadm as [(? & _)|(_ & _ & Hacc)]; [done|].
    by apply accept_task_cases in Hacc as (-> & [(_ & ->)|(_ & _ & _ & ->)]).
  - intros i a st st' evs t H Ht.
    unfold step in H.
    destruct (os_threads st !! i) as [w|] eqn:Hw; simpl in H; [|discriminate].
    destruct (threadFunc_step a w (pool st)) as [[[p' w'] e]|] eqn:Hf;
      simpl in H; [|discriminate].
    simplify_eq. apply threadFunc_step_effect in Hf.
    assert (i < length (os_threads st))%nat as Hi by (by eapply lookup_lt_Some).
    simpl. rewrite list_lookup_insert_eq by done.
    destruct Hf; try (by apply elem_of_nil in Ht).
    assert (popped ([EvPop task] ++
              (if bool_decide (rest = []) then [] else [EvNotifyAll notEmpty_]) ++
              [EvNotifyAll notFull_]) = [task]) as Hpop.
    { by destruct (bool_decide _). }
    rewrite Hpop in Ht |- *. apply list_elem_of_singleton in Ht as ->.
    simpl. eauto.
Qed.

End PoolClaims.

(** ** Handles: rejection and failing tasks *)


(** C2, on ThreadCpp.  A thread that holds a task whose [run()] throws: the
    exception passes through [Task::exec] and out of [threadFunc], nothing
    catches it, and the process is terminated. *)
Theorem ThreadCpp_exception_leaves_threadFunc
    (st : ThreadCpp.State) (i : nat) (w : Worker ThreadCpp.shared_ptr)
    (t : nat) (obj : ThreadCpp.Task) (res : nat) (r : ThreadCpp.Result)
    (fuel : nat) (e : exn) (now : Z) :
  os_threads (ThreadCpp.proc st) !! i = Some w ->
  pc w = Exec (Some t) ->
  ThreadCpp.tasks st !! t = Some obj ->
  ThreadCpp.result_ obj = Some res ->
  ThreadCpp.results st !! res = Some r ->
  ThreadCpp.run obj fuel = Some (Throws e) ->
  ThreadCpp.worker_step i (TaskReturns now) fuel st = Some (Throws e).
Proof.
  intros Hw Hpc Ht Hres Hr Hrun.
  change (ThreadCpp.worker_step i (TaskReturns now) fuel st)
    with (ThreadCpp.run_task i fuel now st).
  unfold ThreadCpp.run_task. rewrite Hw. simpl.
  rewrite Hpc. unfold ThreadCpp.Task_exec. rewrite Ht. simpl.
  rewrite Hres, Hr. simpl. rewrite Hrun. reflexivity.
Qed.

(** On ThreadCppFinal the same task is survived: [packaged_task] stores
    what the callable did, value or exception, the thread counts itself
    idle again and is back at the top of its loop with its record still in
    [threads_], and [get()] on the future yields that outcome. *)
Lemma ThreadCppFinal_outcome_is_stored
    {RType : Type} (st : ThreadCppFinal.State RType) (i : nat)
    (w : Worker (ThreadCppFinal.PackagedTask RType))
    (task : ThreadCppFinal.PackagedTask RType)
    (fuel : nat) (o : Outcome RType) (now : Z) :
  os_threads (ThreadCppFinal.proc st) !! i = Some w ->
  pc w = Exec task ->
  ThreadCppFinal.states st !! ThreadCppFinal.state task = Some ThreadCppFinal.NotReady ->
  ThreadCppFinal.fn task fuel = Some o ->
  exists st',
    ThreadCppFinal.run_task i fuel now st = Some (Returns st')
    /\ os_threads (ThreadCppFinal.proc st') !! i
       = Some {| threadid := threadid w; lastTime := now; pc := LoopHead |}
    /\ threads_ (pool (ThreadCppFinal.proc st')) = threads_ (pool (ThreadCppFinal.proc st))
    /\ idleThreadSize_ (pool (ThreadCppFinal.proc st'))
       = wrap_int (idleThreadSize_ (pool (ThreadCppFinal.proc st)) + 1)
    /\ ThreadCppFinal.future_get (ThreadCppFinal.state task) st' = Some o.
Proof.
  intros Hw Hpc Hs Hfn.
  assert (i < length (os_threads (ThreadCppFinal.proc st)))%nat as Hi
    by (by eapply lookup_lt_Some).
  assert (ThreadCppFinal.state task < length (ThreadCppFinal.states st))%nat as Hl
    by (by eapply lookup_lt_Some).
  unfold ThreadCppFinal.run_task, ThreadCppFinal.packaged_task_call.
  rewrite Hw. simpl. rewrite Hpc, Hs. simpl. rewrite Hfn. simpl.
  destruct o as [v|e]; simpl; rewrite Hw; simpl; rewrite Hpc; simpl;
    eexists; (split; [reflexivity|]); simpl;
    rewrite list_lookup_insert_eq by done;
    (repeat split; try done);
    unfold ThreadCppFinal.future_get; simpl;
    by rewrite list_lookup_insert_eq by done.
Qed.

(** ** ThreadCpp/main.cpp: the sum of 1..10,000,000 *)

Lemma range_sum_step (i n : Z) :
  0 <= n -> range_sum i (n + 1) = i + range_sum (i + 1) n.
Proof.
  intros Hn. unfold range_sum.
  replace ((n + 1) * (n + 1 - 1)) with (n * (n - 1) + n * 2) by lia.
  rewrite Z.div_add by lia. lia.
Qed.

Lemma to_uLong_small (z : Z) : 0 <= z < 18446744073709551616 -> to_uLong z = z.
Proof. intros H. unfold to_uLong. by rewrite Z.mod_small. Qed.

Lemma to_uLong_range (z : Z) : 0 <= to_uLong z < 18446744073709551616.
Proof. unfold to_uLong. by apply Z.mod_pos_bound. Qed.

(** With fuel for more than the [n] remaining rounds the loop ends with the
    sum, modulo 2^64. *)
Lemma sum_loop_enough (n : nat) :
  forall (fuel : nat) (i end_ sum : Z),
    (n < fuel)%nat -> 0 <= i ->
    i + Z.of_nat n = to_uLong end_ + 1 ->
    to_uLong end_ + 1 < 18446744073709551616 ->
    0 <= sum < 18446744073709551616 ->
    ThreadCpp.sum_loop fuel i end_ sum = Some (to_uLong (sum + range_sum i (Z.of_nat n))).
Proof.
  induction n as [|n IH]; intros fuel i end_ sum Hf Hi Hn He Hs;
    (destruct fuel as [|fuel]; [lia|]); simpl ThreadCpp.sum_loop.
  - destruct (i <=? to_uLong end_) eqn:Hc; [apply Z.leb_le in Hc; lia|].
    unfold range_sum. change (Z.of_nat 0) with 0.
    rewrite Z.mul_0_r. change (0 * (0 - 1) `div` 2) with 0.
    rewrite !Z.add_0_r, to_uLong_small; done.
  - destruct (i <=? to_uLong end_) eqn:Hc; [|apply Z.leb_gt in Hc; lia].
    rewrite (to_uLong_small (i + 1)) by lia.
    rewrite IH; [|lia|lia|lia|done|apply to_uLong_range].
    f_equal. replace (Z.of_nat (S n)) with (Z.of_nat n + 1) by lia.
    rewrite range_sum_step by lia.
    unfold to_uLong. rewrite Zplus_mod_idemp_l. f_equal. lia.
Qed.

(** With less fuel it does not end. *)
Lemma sum_loop_short (fuel : nat) :
  forall (n : nat) (i end_ sum : Z),
    (fuel <= n)%nat -> 0 <= i ->
    i + Z.of_nat n = to_uLong end_ + 1 ->
    to_uLong end_ + 1 < 18446744073709551616 ->
    ThreadCpp.sum_loop fuel i end_ sum = None.
Proof.
  induction fuel as [|fuel IH]; intros n i end_ sum Hf Hi Hn He; simpl; [done|].
  destruct n as [|n]; [lia|].
  destruct (i <=? to_uLong end_) eqn:Hc; [|apply Z.leb_gt in Hc; lia].
  rewrite (to_uLong_small (i + 1)) by lia.
  apply (IH n); lia.
Qed.

(** [MyTask(1, 10000000).run()] returns 50000005000000 and nothing else. *)
Lemma MyTask_run_main (fuel : nat) :
  ThreadCpp.MyTask_run 1 10000000 fuel
  = if decide (Z.to_nat 10000000 < fuel)%nat
    then Some (Returns (ThreadCpp.Any_uLong 50000005000000))
    else None.
Proof.
  unfold ThreadCpp.MyTask_run.
  assert (to_uLong 1 = 1) as -> by reflexivity.
  assert (Z.of_nat (Z.to_nat 10000000) = 10000000) as Hn by (by apply Z2Nat.id).
  assert (to_uLong 10000000 = 10000000) as He by reflexivity.
  destruct (decide _) as [Hf|Hf].
  - rewrite (sum_loop_enough (Z.to_nat 10000000)).
    + rewrite Hn. reflexivity.
    + exact Hf.
    + lia.
    + rewrite Hn, He. reflexivity.
    + rewrite He. reflexivity.
    + lia.
  - rewrite (sum_loop_short fuel (Z.to_nat 10000000)).
    + reflexivity.
    + lia.
    + lia.
    + rewrite Hn, He. reflexivity.
    + rewrite He. reflexivity.
Qed.

(** A thread's step keeps a property of the tasks in flight: what it takes
    out of the queue was in the queue. *)
Lemma thread_step_tasks_known {T : Type} (P : T -> Prop)
    (i : nat) (a : WorkerAct) (st st' : Process T) (evs : list (Event T)) :
  step (Run i a) st = Some (st', evs) ->
  Forall P (taskQue_ (pool st)) ->
  Forall (fun w => forall t, pc w = Exec t -> P t) (os_threads st) ->
  Forall P (taskQue_ (pool st'))
  /\ Forall (fun w => forall t, pc w = Exec t -> P t) (os_threads st').
Proof.
  intros H Hq Hw.
  unfold step in H.
  destruct (os_threads st !! i) as [w|] eqn:Hi; simpl in H; [|discriminate].
  destruct (threadFunc_step a w (pool st)) as [[[p' w'] e]|] eqn:Hf;
    simpl in H; [|discriminate].
  simplify_eq. apply threadFunc_step_effect in Hf. simpl.
  destruct Hf; simpl; (split; [try done | apply Forall_insert; [done|]; try done]).
  - subst pc'. simpl. intros t. by destruct (decide _).
  - rewrite H in Hq. by apply Forall_cons in Hq as [_ ?].
  - rewrite H in Hq. apply Forall_cons in Hq as [? _].
    simpl. intros t ?. by simplify_eq.
Qed.

Section MainInvariant.

Variables (f : RunFn ThreadCpp.Any) (v : ThreadCpp.Any).
Hypothesis f_returns_v : forall fuel o, f fuel = Some o -> o = Returns v.

Lemma worker_step_main_inv i a fuel st st' :
  main_inv f v st ->
  ThreadCpp.worker_step i a fuel st = Some (Returns st') ->
  main_inv f v st'.
Proof.
  intros (Ht & Hq & Hw & r & Hr & Hv & Hs) H.
  assert (forall st1,
            ThreadCpp.tasks st1 = ThreadCpp.tasks st ->
            ThreadCpp.proc st1 = ThreadCpp.proc st ->
            (exists r1, ThreadCpp.results st1 = [r1] /\ ThreadCpp.isValid_ r1 = true
               /\ ((ThreadCpp.any_ r1 = ThreadCpp.Any_null
                    /\ ThreadCpp.resLimit_ (ThreadCpp.sem_ r1) = 0)
                   \/ (ThreadCpp.any_ r1 = v
                       /\ 1 <= ThreadCpp.resLimit_ (ThreadCpp.sem_ r1)))) ->
            forall a',
            (x ← step (Run i a') (ThreadCpp.proc st1);
             Some (Returns (ThreadCpp.set_proc x.1 st1))) = Some (Returns st') ->
            main_inv f v st') as Hcore.
  { intros st1 Et Ep Hr1 a' H1.
    destruct (step (Run i a') (ThreadCpp.proc st1)) as [[pr e]|] eqn:Hstep;
      simpl in H1; [|discriminate].
    simplify_eq. rewrite Ep in Hstep.
    apply (thread_step_tasks_known (fun q => q = Some 0%nat)) in Hstep as [Hq' Hw']; try done.
    unfold main_inv. simpl. rewrite Et. done. }
  destruct a; try (by apply (Hcore st eq_refl eq_refl ltac:(eauto) _ H)).
  Opaque step.
  change (ThreadCpp.run_task i fuel now st = Some (Returns st')) in H.
  unfold ThreadCpp.run_task in H.
  destruct (os_threads (ThreadCpp.proc st) !! i) as [w|] eqn:Hi; simpl in H; [|discriminate].
  destruct (pc w) as [| | | |task|] eqn:Hpc; try discriminate.
  assert (task = Some 0%nat) as ->.
  { eapply Forall_lookup_1 in Hw; [|exact Hi]. by apply Hw. }
  unfold ThreadCpp.Task_exec in H. rewrite Ht, Hr in H. simpl in H.
  destruct (f fuel) as [o|] eqn:Hf; simpl in H; [|discriminate].
  apply f_returns_v in Hf as ->. simpl in H.
  eapply Hcore; [| |  |exact H]; try done.
  simpl. eexists. split; [reflexivity|]. split; [done|]. right. simpl.
  split; [done|]. destruct Hs as [[_ ->]|[_ ?]]; lia.
  Transparent step.
Qed.

Lemma run_workers_main_inv sched :
  forall st st',
    main_inv f v st ->
    ThreadCpp.run_workers sched st = Some (Returns st') ->
    main_inv f v st'.
Proof.
  induction sched as [|[[i a] fuel] sched IH]; simpl; intros st st' Hinv H.
  - by simplify_eq.
  - destruct (ThreadCpp.worker_step i a fuel st) as [[st1|e]|] eqn:H1; try discriminate.
    eapply IH; [|exact H]. by eapply worker_step_main_inv.
Qed.

Lemma Result_get_main_inv st g :
  main_inv f v st -> ThreadCpp.Result_get 0 st = Some g -> g.1 = v.
Proof.
  intros (_ & _ & _ & r & Hr & Hv & Hs) H.
  unfold ThreadCpp.Result_get in H. rewrite Hr in H. simpl in H.
  rewrite Hv in H. simpl in H.
  unfold ThreadCpp.Semaphore_wait in H.
  destruct Hs as [[_ Hs]|[Ha Hs]].
  - rewrite Hs in H. simpl in H. discriminate.
  - destruct (0 <? _); simpl in H; [|discriminate]. by simplify_eq.
Qed.

End MainInvariant.

(** A thread that holds a task whose [run()] returns: the value is stored
    in the Result, the semaphore is posted, and [get()] then returns it. *)
Lemma run_task_returns
    (st : ThreadCpp.State) (i : nat) (w : Worker (option nat))
    (t : nat) (obj : ThreadCpp.Task) (res : nat) (r : ThreadCpp.Result)
    (fuel : nat) (a : ThreadCpp.Any) (now : Z) :
  os_threads (ThreadCpp.proc st) !! i = Some w ->
  pc w = Exec (Some t) ->
  ThreadCpp.tasks st !! t = Some obj ->
  ThreadCpp.result_ obj = Some res ->
  ThreadCpp.results st !! res = Some r ->
  ThreadCpp.isValid_ r = true ->
  ThreadCpp.resLimit_ (ThreadCpp.sem_ r) = 0 ->
  ThreadCpp.run obj fuel = Some (Returns a) ->
  exists st' st'',
    ThreadCpp.worker_step i (TaskReturns now) fuel st = Some (Returns st')
    /\ ThreadCpp.Result_get res st' = Some (a, st'').
Proof.
  intros Hw Hpc Ht Hres Hr Hv Hs Hrun.
  assert (res < length (ThreadCpp.results st))%nat as Hl by (by eapply lookup_lt_Some).
  change (ThreadCpp.worker_step i (TaskReturns now) fuel st)
    with (ThreadCpp.run_task i fuel now st).
  unfold ThreadCpp.run_task. rewrite Hw. simpl.
  rewrite Hpc. unfold ThreadCpp.Task_exec. rewrite Ht. simpl.
  rewrite Hres, Hr. simpl. rewrite Hrun. simpl.
  rewrite Hw. simpl. unfold threadFunc_step. rewrite Hpc. simpl.
  eexists _, _. split; [reflexivity|].
  unfold ThreadCpp.Result_get. simpl.
  rewrite list_lookup_insert_eq by done. simpl. rewrite Hv. simpl.
  unfold ThreadCpp.Semaphore_wait. simpl. rewrite Hs. simpl. reflexivity.
Qed.

Lemma run_workers_app sched1 sched2 st st1 :
  ThreadCpp.run_workers sched1 st = Some (Returns st1) ->
  ThreadCpp.run_workers (sched1 ++ sched2) st = ThreadCpp.run_workers sched2 st1.
Proof.
  revert st. induction sched1 as [|[[i a] fuel] sched1 IH]; intros st H.
  - simpl in H. by simplify_eq.
  - rewrite <- app_comm_cons.
    change (ThreadCpp.run_workers ((i, a, fuel) :: sched1 ++ sched2) st)
      with (match ThreadCpp.worker_step i a fuel st with
            | Some (Returns st1) => ThreadCpp.run_workers (sched1 ++ sched2) st1
            | other => other
            end).
    change (ThreadCpp.run_workers ((i, a, fuel) :: sched1) st)
      with (match ThreadCpp.worker_step i a fuel st with
            | Some (Returns st1) => ThreadCpp.run_workers sched1 st1
            | other => other
            end) in H.
    destruct (ThreadCpp.worker_step i a fuel st) as [[s|e]|]; try discriminate.
    by apply IH.
Qed.

Lemma main_sum1_eq sched st0 st g :
  ThreadCpp.main_submit = Some (0%nat, st0) ->
  ThreadCpp.run_workers sched st0 = Some (Returns st) ->
  ThreadCpp.Result_get 0 st = Some g ->
  ThreadCpp.main_sum1 sched = ThreadCpp.cast_uLong g.1.
Proof.
  intros E0 E1 E2. unfold ThreadCpp.main_sum1. rewrite E0. simpl.
  rewrite E1. simpl. rewrite E2. reflexivity.
Qed.

(** [main] once the first thread has taken the task, whatever the task is. *)
Lemma main_before_task (f : RunFn ThreadCpp.Any) :
  exists st0 st w r,
    (pr ← start 4 (ThreadCpp.proc (ThreadCpp.initial 0));
     let '(sp, st) := ThreadCpp.make_shared f
                        (ThreadCpp.set_proc pr (ThreadCpp.initial 0)) in
     r ← ThreadCpp.submitTask false sp st;
     Some (r.1.1, r.1.2)) = Some (0%nat, st0)
    /\ ThreadCpp.run_workers [(0%nat, Enter 0, 0%nat); (0%nat, Lock, 0%nat)] st0
       = Some (Returns st)
    /\ os_threads (ThreadCpp.proc st) !! 0%nat = Some w
    /\ pc w = Exec (Some 0%nat)
    /\ ThreadCpp.tasks st !! 0%nat
       = Some {| ThreadCpp.run := f; ThreadCpp.result_ := Some 0%nat |}
    /\ ThreadCpp.results st !! 0%nat = Some r
    /\ ThreadCpp.isValid_ r = true
    /\ ThreadCpp.resLimit_ (ThreadCpp.sem_ r) = 0.
Proof.
  eexists _, _, _, _.
  split; [vm_compute; reflexivity|].
  split; [vm_compute; reflexivity|].
  repeat split; reflexivity.
Qed.

(** The schedule [first_thread_runs_it] brings [main] to its result. *)
Lemma main_sum1_first_thread :
  ThreadCpp.main_sum1 first_thread_runs_it = Some 50000005000000.
Proof.
  assert (ThreadCpp.MyTask_run 1 10000000 (Z.to_nat 10000001)
          = Some (Returns (ThreadCpp.Any_uLong 50000005000000))) as Hf.
  { rewrite MyTask_run_main. destruct (decide _) as [|Hn]; [done|]. lia. }
  destruct (main_before_task (ThreadCpp.MyTask_run 1 10000000))
    as (st0 & st & w & r & E0 & E1 & Hw & Hpc & Ht & Hr & Hv & Hs).
  destruct (run_task_returns st 0 w 0 _ 0 r (Z.to_nat 10000001)
              (ThreadCpp.Any_uLong 50000005000000) 0 Hw Hpc Ht eq_refl Hr Hv Hs Hf)
    as (st' & st'' & E2 & E3).
  rewrite (main_sum1_eq first_thread_runs_it st0 st'
             (ThreadCpp.Any_uLong 50000005000000, st'') E0); [reflexivity| |exact E3].
  change first_thread_runs_it
    with ([(0%nat, Enter 0, 0%nat); (0%nat, Lock, 0%nat)]
          ++ [(0%nat, TaskReturns 0, Z.to_nat 10000001)]).
  rewrite (run_workers_app _ _ _ _ E1).
  change (ThreadCpp.run_workers [(0%nat, TaskReturns 0, Z.to_nat 10000001)] st)
    with (match ThreadCpp.worker_step 0 (TaskReturns 0) (Z.to_nat 10000001) st with
          | Some (Returns st1) => Some (Returns st1)
          | other => other
          end).
  rewrite E2. reflexivity.
Qed.

(** After the submission [main] is in a state of [main_inv], whatever the
    task is, and holds the Result at address 0. *)
Lemma main_submit_inv (f : RunFn ThreadCpp.Any) (v : ThreadCpp.Any) :
  exists st,
    (pr ← start 4 (ThreadCpp.proc (ThreadCpp.initial 0));
     let '(sp, st) := ThreadCpp.make_shared f
                        (ThreadCpp.set_proc pr (ThreadCpp.initial 0)) in
     r ← ThreadCpp.submitTask false sp st;
     Some (r.1.1, r.1.2)) = Some (0%nat, st)
    /\ main_inv f v st.
Proof.
  eexists. split; [vm_compute; reflexivity|].
  unfold main_inv. simpl.
  split; [reflexivity|].
  split; [by repeat constructor|].
  split; [by repeat constructor|].
  eexists. split; [reflexivity|]. split; [reflexivity|]. left. done.
Qed.

(** [main] after the submission, case by case. *)
Lemma main_sum1_cases sched st0 :
  ThreadCpp.main_submit = Some (0%nat, st0) ->
  ThreadCpp.main_sum1 sched
  = match ThreadCpp.run_workers sched st0 with
    | Some (Returns st) => g ← ThreadCpp.Result_get 0 st; ThreadCpp.cast_uLong g.1
    | _ => None
    end.
Proof.
  intros E0. unfold ThreadCpp.main_sum1. rewrite E0. simpl.
  by destruct (ThreadCpp.run_workers sched st0) as [[|]|].
Qed.

Lemma MyTask_run_main_only (fuel : nat) (o : Outcome ThreadCpp.Any) :
  ThreadCpp.MyTask_run 1 10000000 fuel = Some o ->
  o = Returns (ThreadCpp.Any_uLong 50000005000000).
Proof.
  intros Ho. rewrite MyTask_run_main in Ho.
  destruct (decide _); [by injection Ho as <- | discriminate Ho].
Qed.

(** C9 (as amended).  In [main] of ThreadCpp (a fixed pool of 4 threads,
    one task summing 1..10,000,000), [res1.get().cast_<uLong>()] yields
    50,000,005,000,000: it does so once the first thread has run the task,
    and whatever the threads do it never yields another value. *)
Theorem main_sum1_is_gauss_sum :
  ThreadCpp.main_sum1 first_thread_runs_it = Some 50000005000000
  /\ forall (sched : list (nat * WorkerAct * nat)) (v : Z),
       ThreadCpp.main_sum1 sched = Some v -> v = 50000005000000.
Proof.
  split; [exact main_sum1_first_thread|].
  intros sched v H.
  destruct (main_submit_inv (ThreadCpp.MyTask_run 1 10000000)
              (ThreadCpp.Any_uLong 50000005000000)) as (st & E & Hinv).
  rewrite (main_sum1_cases sched st E) in H. clear E.
  destruct (ThreadCpp.run_workers sched st) as [[st'|e]|] eqn:Hrun;
    try discriminate H.
  destruct (ThreadCpp.Result_get 0 st') as [g|] eqn:Hget; [|discriminate H].
  assert (g.1 = ThreadCpp.Any_uLong 50000005000000) as Hg.
  { eapply Result_get_main_inv; [| |exact Hget].
    - exact MyTask_run_main_only.
    - eapply run_workers_main_inv; [| exact Hinv | exact Hrun].
      exact MyTask_run_main_only. }
  simpl in H. rewrite Hg in H. simpl in H. by injection H as <-.
Qed.

Lemma main_sum1_is_gauss_sum_witness :
  ThreadCpp.main_sum1 first_thread_runs_it = Some 50000005000000
  /\ 50000005000000 = 50000005000000.
Proof.
  split; [exact main_sum1_first_thread|].
  exact (proj2 main_sum1_is_gauss_sum first_thread_runs_it 50000005000000
           main_sum1_first_thread).
Defined.

(** C9 as stated fails: on that schedule [main] gets 50,000,005,000,000,
    which is not 50,000,000,000. *)
Lemma main_sum1_is_not_50000000000 :
  ThreadCpp.main_sum1 first_thread_runs_it = Some 50000005000000
  /\ ThreadCpp.main_sum1 first_thread_runs_it <> Some 50000000000.
Proof.
  split; [exact main_sum1_first_thread|].
  rewrite main_sum1_first_thread. discriminate.
Qed.

(** ** Concrete runs: where the stated claims and the code part *)

Ltac in_range := unfold ints_ok, in_int; vm_compute; intuition discriminate.
Ltac by_computing := vm_compute; first [reflexivity | discriminate].

(** C7 as stated fails: on a new pool, not running and in fixed mode,
    [setThreadSizeThreshHold(20)] leaves the ceiling at 10. *)
Lemma setThreadSizeThreshHold_needs_cached_mode :
  isPoolRunning_ (@ThreadPool_new nat) = false
  /\ threadSizeThreshHold_ (setThreadSizeThreshHold 20 (@ThreadPool_new nat)) = 10
  /\ threadSizeThreshHold_ (setThreadSizeThreshHold 20 (@ThreadPool_new nat)) <> 20.
Proof. repeat split. discriminate. Qed.

Lemma setters_guarded_witness :
  (setMode MODE_CACHED running_pool = running_pool
   /\ setTaskQueMaxThreshHold 5 running_pool = running_pool
   /\ setThreadSizeThreshHold 7 running_pool = running_pool)
  /\ poolMode_ (setMode MODE_CACHED (@ThreadPool_new nat)) = MODE_CACHED
  /\ taskQueMaxThreshHold_ (setTaskQueMaxThreshHold 5 (@ThreadPool_new nat)) = 5
  /\ setThreadSizeThreshHold 7 (@ThreadPool_new nat) = ThreadPool_new
  /\ threadSizeThreshHold_ (setThreadSizeThreshHold 7 (pool cached_unstarted)) = 7.
Proof.
  split; [apply (proj1 (setters_guarded running_pool MODE_CACHED 5 7)); reflexivity|].
  pose proof (proj2 (setters_guarded (@ThreadPool_new nat) MODE_CACHED 5 7) eq_refl)
    as (_ & Hm & _ & Hq & _ & Hf).
  pose proof (proj2 (setters_guarded (pool cached_unstarted) MODE_CACHED 5 7) eq_refl)
    as (_ & _ & _ & _ & Hc & _).
  split; [exact Hm|]. split; [exact Hq|]. split; [exact (Hf eq_refl)|].
  exact (proj2 (Hc eq_refl)).
Defined.

Lemma setInitThreadSize_unguarded_witness :
  initThreadSize_ (setInitThreadSize 2 (set_curThreadSize_ 4 running_pool)) = 2
  /\ (pc (after_wait_for timeout (60 * ticks_per_second)
            {| threadid := 3; lastTime := 0; pc := InWaitFor |}
            (setInitThreadSize 2 (set_curThreadSize_ 4 running_pool))).1.2 = Returned
      <-> 2 < 4).
Proof.
  pose proof (setInitThreadSize_unguarded (set_curThreadSize_ 4 running_pool) 2) as H.
  cbv zeta in H. destruct H as (Hi & _ & _ & _ & _ & _ & _ & _ & _ & _ & Hw).
  split; [exact Hi|].
  apply (Hw {| threadid := 3; lastTime := 0; pc := InWaitFor |} (60 * ticks_per_second));
    [reflexivity | reflexivity | vm_compute; discriminate].
Defined.

(** C3 as stated fails: a cached pool started with 20 threads under the
    default ceiling of 10 has, after a submission that is admitted, a
    current count of 20. *)
Lemma start_goes_above_ceiling :
  exists st evs,
    run started_above_ceiling (fresh 0) = Some (st, evs)
    /\ poolMode_ (pool st) = MODE_CACHED
    /\ emplaced evs = [7%nat]
    /\ curThreadSize_ (pool st) = 20
    /\ threadSizeThreshHold_ (pool st) = 10
    /\ ~ curThreadSize_ (pool st) <= threadSizeThreshHold_ (pool st).
Proof.
  eexists _, _. split; [vm_compute; reflexivity|].
  repeat split. simpl. lia.
Qed.

Lemma submit_spawns_within_ceiling_witness :
  exists st1 evs1 st2 evs2,
    submitTask_admission false 7%nat cached_unstarted = Some (true, st1, evs1)
    /\ run [Run 0 (Enter 0); Run 0 Lock] st1 = Some (st2, evs2)
    /\ length (os_threads st1) = 1%nat
    /\ curThreadSize_ (pool st1) = 1
    /\ idleThreadSize_ (pool st1) = 1
    /\ curThreadSize_ (pool st2) <= threadSizeThreshHold_ (pool st2).
Proof.
  eexists _, _, _, _.
  split; [vm_compute; reflexivity|].
  split; [vm_compute; reflexivity|].
  edestruct (@submit_spawns_within_ceiling nat)
    with (st := cached_unstarted) (timed_out := false) (sp := 7%nat)
         (ops := [Run 0 (Enter 0); Run 0 Lock] : list (Op nat))
    as (Hw & _ & Hk).
  - in_range.
  - vm_compute; reflexivity.
  - repeat constructor.
  - repeat constructor.
  - vm_compute; reflexivity.
  - destruct Hw as ((w & -> & _) & Hc & Hi).
    + repeat split; by_computing.
    + split; [reflexivity|]. split; [exact Hc|]. split; [exact Hi|].
      apply Hk. by_computing.
Defined.

(** C4 as stated fails: a new pool has a current count of 0 under an
    initial count of 4, and on a pool started with 4 threads
    [setInitThreadSize(5)] puts the initial count above the current one
    while the pool runs on, no shutdown in sight. *)
Lemma current_count_below_initial :
  curThreadSize_ (pool (@fresh nat 0)) < initThreadSize_ (pool (@fresh nat 0))
  /\ exists st evs,
       run initial_count_raised (fresh 0) = Some (st, evs)
       /\ isPoolRunning_ (pool st) = true
       /\ curThreadSize_ (pool st) = 4
       /\ initThreadSize_ (pool st) = 5
       /\ ~ initThreadSize_ (pool st) <= curThreadSize_ (pool st).
Proof.
  split; [reflexivity|].
  eexists _, _. split; [vm_compute; reflexivity|].
  repeat split. simpl. lia.
Qed.

Lemma idle_retirement_stops_at_initial_count_witness :
  (exists st evs0 w st1,
     run idle_then_shutdown (fresh 0) = Some (st, evs0)
     /\ os_threads st !! 0%nat = Some w
     /\ step last_wait_times_out st = Some (st1, [])
     /\ os_threads st1 !! 0%nat = Some (set_pc Returned w)
     /\ curThreadSize_ (pool st1) = curThreadSize_ (pool st) - 1
     /\ initThreadSize_ (pool st1) <= curThreadSize_ (pool st1))
  /\ (exists st st' evs,
        start 4 (@fresh nat 0) = Some st
        /\ run [Run 0 (Enter 0); Run 0 Lock; CallSubmitTask 7%nat false] st
           = Some (st', evs)
        /\ initThreadSize_ (pool st') <= curThreadSize_ (pool st')).
Proof.
  split.
  - eexists _, _, _, _.
    split; [vm_compute; reflexivity|].
    split; [reflexivity|].
    split; [vm_compute; reflexivity|].
    match goal with
    | |- os_threads ?s1 !! _ = Some (set_pc _ ?w)
         /\ curThreadSize_ _ = curThreadSize_ (pool ?s0) - 1 /\ _ =>
        destruct (proj1 (@idle_retirement_stops_at_initial_count nat)
                    s0 0%nat w timeout (60 * ticks_per_second) s1 [])
          as (Hiff & Hdec);
          [in_range | reflexivity | reflexivity | vm_compute; reflexivity |]
    end.
    cbv zeta in Hiff, Hdec.
    assert (timeout = timeout
            /\ THREAD_MAX_IDLE_TIME * ticks_per_second
               <= 60 * ticks_per_second - 0
            /\ (0 < 1)) as Hexp by (repeat split; by_computing).
    split; [apply (proj1 (proj2 Hiff Hexp))|].
    split; [apply (Hdec Hexp)|apply (Hdec Hexp)].
  - eexists _, _, _.
    split; [vm_compute; reflexivity|].
    split; [vm_compute; reflexivity|].
    eapply (proj2 (@idle_retirement_stops_at_initial_count nat))
      with (st0 := fresh 0) (n := 4)
           (ops := [Run 0 (Enter 0); Run 0 Lock; CallSubmitTask 7%nat false]).
    + in_range.
    + in_range.
    + vm_compute; reflexivity.
    + repeat constructor.
    + repeat constructor.
    + vm_compute; reflexivity.
Defined.

(** C5 as stated fails: after two submissions to a pool that has not been
    started, [setTaskQueMaxThreshHold(1)] takes effect and leaves two tasks
    in a queue whose ceiling is 1. *)
Lemma queue_longer_than_capacity :
  exists st evs,
    run capacity_lowered (fresh 0) = Some (st, evs)
    /\ taskQue_ (pool st) = [1%nat; 2%nat]
    /\ taskQueMaxThreshHold_ (pool st) = 1
    /\ ~ queue_size (pool st) <= taskQueMaxThreshHold_ (pool st).
Proof.
  eexists _, _. split; [vm_compute; reflexivity|].
  repeat split. unfold queue_size. simpl. lia.
Qed.

Lemma counter_follows_queue_witness :
  exists st1 evs1 st2 evs2,
    run [CallSetTaskQueMaxThreshHold 2; CallStart 1; CallSubmitTask 1%nat false]
        (fresh 0) = Some (st1, evs1)
    /\ run [CallSubmitTask 2%nat false; CallSubmitTask 3%nat true;
            Run 0 (Enter 0); Run 0 Lock] st1 = Some (st2, evs2)
    /\ taskSize_ (pool st1) = queue_size (pool st1)
    /\ taskSize_ (pool st2) = queue_size (pool st2)
    /\ queue_size (pool st2) <= taskQueMaxThreshHold_ (pool st2).
Proof.
  eexists _, _, _, _.
  split; [vm_compute; reflexivity|].
  split; [vm_compute; reflexivity|].
  edestruct (@counter_follows_queue nat)
    with (g := 0)
         (ops1 := [CallSetTaskQueMaxThreshHold 2; CallStart 1;
                   CallSubmitTask 1%nat false] : list (Op nat))
         (ops2 := [CallSubmitTask 2%nat false; CallSubmitTask 3%nat true;
                   Run 0 (Enter 0); Run 0 Lock] : list (Op nat))
    as (H1 & H2 & H3).
  - repeat constructor; in_range.
  - repeat constructor; by_computing.
  - vm_compute; reflexivity.
  - repeat constructor.
  - repeat constructor.
  - vm_compute; reflexivity.
  - split; [exact H1|]. split; [exact H2|]. apply H3. by_computing.
Defined.

(** C6, where the code parts from it.  A thread of a cached pool, idle for
    60 seconds with the current count above the initial count, is in its
    timed wait when the destructor clears the running flag.  The wait times
    out.  With the queue empty and the flag false the thread returns
    through the idle-timeout exit: it takes one from the current and the
    idle count and signals nothing, [exitCond_] included, although it
    leaves [threads_] empty, which is what the destructor waits for. *)
Theorem idle_exit_after_shutdown_began :
  exists st evs st',
    run idle_then_shutdown (fresh 0) = Some (st, evs)
    /\ isPoolRunning_ (pool st) = false
    /\ taskQue_ (pool st) = []
    /\ pc <$> os_threads st !! 0%nat = Some InWaitFor
    /\ step last_wait_times_out st = Some (st', [])
    /\ pc <$> os_threads st' !! 0%nat = Some Returned
    /\ curThreadSize_ (pool st') = curThreadSize_ (pool st) - 1
    /\ idleThreadSize_ (pool st') = idleThreadSize_ (pool st) - 1
    /\ all_exited (pool st) = false
    /\ all_exited (pool st') = true.
Proof.
  eexists _, _, _.
  split; [vm_compute; reflexivity|].
  do 3 (split; [reflexivity|]).
  split; [vm_compute; reflexivity|].
  repeat split; vm_compute; reflexivity.
Qed.

(** The check that C6 describes is there and comes first: a thread that
    evaluates the loop condition with the queue empty and the flag false
    erases its record, signals [exitCond_] and returns, in either mode. *)
Lemma shutdown_check_comes_first {T : Type} (w : Worker T) (p : ThreadPool T) :
  taskQue_ p = [] -> isPoolRunning_ p = false ->
  while_taskQue_empty w p
  = (erase_thread (threadid w) p, set_pc Returned w, [EvNotifyAll exitCond_]).
Proof. intros Hq Hr. unfold while_taskQue_empty. by rewrite Hq, Hr. Qed.

(** C8 as stated fails: with two threads the tasks are not executed in
    submission order.  Both tasks leave the queue in the order they were
    submitted, but the second is run to its end, its result (7) in its
    future, while the thread that took the first is still about to run it
    and the first future is not ready. *)
Lemma tasks_finish_out_of_order :
  exists futA futB evs st w0,
    second_task_finishes_first = Some (futA, futB, evs, st)
    /\ emplaced evs = [{| ThreadCppFinal.fn := sum1 1 2; ThreadCppFinal.state := futA |};
                       {| ThreadCppFinal.fn := sum1 3 4; ThreadCppFinal.state := futB |}]
    /\ popped evs = emplaced evs
    /\ os_threads (ThreadCppFinal.proc st) !! 0%nat = Some w0
    /\ pc w0 = Exec {| ThreadCppFinal.fn := sum1 1 2; ThreadCppFinal.state := futA |}
    /\ ThreadCppFinal.future_get futA st = None
    /\ ThreadCppFinal.future_get futB st = Some (Returns 7).
Proof.
  eexists _, _, _, _, _.
  split; [vm_compute; reflexivity|].
  repeat split; vm_compute; reflexivity.
Qed.

Lemma queue_is_fifo_witness :
  exists st evs st' evs',
    run [CallSubmitTask 1%nat false; CallSubmitTask 2%nat false; CallStart 1;
         Run 0 (Enter 0)] (fresh 0) = Some (st, evs)
    /\ step (Run 0 Lock) st = Some (st', evs')
    /\ emplaced evs = [1%nat; 2%nat]
    /\ [] ++ emplaced (evs ++ evs') = popped (evs ++ evs') ++ taskQue_ (pool st')
    /\ popped evs' = [1%nat]
    /\ taskQue_ (pool st) = 1%nat :: taskQue_ (pool st')
    /\ (exists st1 evs1,
          submitTask_admission false 3%nat st' = Some (true, st1, evs1)
          /\ taskQue_ (pool st1) = taskQue_ (pool st') ++ [3%nat]
          /\ emplaced evs1 = [3%nat]).
Proof.
  eexists _, _, _, _.
  split; [vm_compute; reflexivity|].
  split; [vm_compute; reflexivity|].
  split; [reflexivity|].
  destruct (@queue_is_fifo nat) as (Hrun & Hadm & Hpop).
  split.
  { apply (Hrun [CallSubmitTask 1%nat false; CallSubmitTask 2%nat false; CallStart 1;
                 Run 0 (Enter 0); Run 0 Lock] (fresh 0)).
    vm_compute; reflexivity. }
  match goal with
  | |- popped ?e = _ /\ taskQue_ (pool ?s) = _ :: taskQue_ (pool ?s') /\ _ =>
      destruct (Hpop 0%nat Lock s s' e 1%nat) as (Hp & Hq & _);
        [vm_compute; reflexivity | vm_compute; left |]
  end.
  split; [exact Hp|]. split; [exact Hq|].
  eexists _, _. split; [vm_compute; reflexivity|].
  match goal with
  | |- taskQue_ (pool ?s1) = taskQue_ (pool ?s0) ++ _ /\ emplaced ?e1 = _ =>
      apply (Hadm false 3%nat s0 s1 e1)
  end.
  vm_compute; reflexivity.
Defined.



Lemma ThreadCpp_exception_leaves_threadFunc_witness :
  exists st,
    (pr ← start 1 (ThreadCpp.proc (ThreadCpp.initial 0));
     let '(sp, st0) := ThreadCpp.make_shared thrower
                         (ThreadCpp.set_proc pr (ThreadCpp.initial 0)) in
     r ← ThreadCpp.submitTask false sp st0;
     ThreadCpp.run_workers [(0%nat, Enter 0, 0%nat); (0%nat, Lock, 0%nat)] r.1.2)
    = Some (Returns st)
    /\ ThreadCpp.worker_step 0 (TaskReturns 0) 0 st = Some (Throws (Exn "boom")).
Proof.
  eexists. split; [vm_compute; reflexivity|].
  eapply (ThreadCpp_exception_leaves_threadFunc _ 0%nat _ 0%nat _ 0%nat);
    reflexivity.
Defined.

(** * Further properties of the code *)

(** ** ThreadPool::start *)

Section Start.

Context {T : Type}.
Implicit Types (p : ThreadPool T) (w : Worker T) (st : Process T) (op : Op T).

Lemma create_threads_spec (n : nat) :
  forall st,
    0 <= generateId_ st ->
    generateId_ st + Z.of_nat n <= INT32_MAX ->
    (forall k, generateId_ st <= k -> threads_ (pool st) !! k = None) ->
    generateId_ (create_threads n st) = generateId_ st + Z.of_nat n
    /\ forall k,
         threads_ (pool (create_threads n st)) !! k
         = if decide (generateId_ st <= k < generateId_ st + Z.of_nat n)
           then Some {| threadId_ := k |}
           else threads_ (pool st) !! k.
Proof.
  induction n as [|n IH]; intros st Hg Hmax Hfree.
  - simpl. split; [lia|]. intros k. destruct (decide _); [lia|done].
  - simpl create_threads. unfold getId. simpl threadId_.
    set (st1 := {| pool := _; generateId_ := _; os_threads := _ |}).
    assert (generateId_ st1 = generateId_ st + 1) as Hg1.
    { simpl. apply wrap_int_id. unfold in_int, INT32_MIN, INT32_MAX in *. lia. }
    assert (forall k, threads_ (pool st1) !! k
                      = if decide (k = generateId_ st) then Some {| threadId_ := k |}
                        else threads_ (pool st) !! k) as Ht1.
    { intros k. simpl. unfold emplace. rewrite Hfree by lia.
      destruct (decide (k = generateId_ st)) as [->|Hne].
      - by rewrite lookup_insert_eq.
      - by rewrite lookup_insert_ne. }
    destruct (IH st1) as [Hgen Hlook].
    + lia.
    + lia.
    + intros k Hk. rewrite Ht1. destruct (decide _); [lia|]. apply Hfree. lia.
    + split; [lia|]. intros k. rewrite Hlook, Ht1, Hg1.
      repeat destruct (decide _); try lia; done.
Qed.

Lemma start_threads_spec (n : nat) :
  forall (i : Z) st,
    (forall k, i <= k < i + Z.of_nat n ->
               threads_ (pool st) !! k = Some {| threadId_ := k |}) ->
    exists st',
      start_threads n i st = Some st'
      /\ os_threads st' = os_threads st ++ workers_from i n
      /\ generateId_ st' = generateId_ st
      /\ exists idle,
           pool st' = set_idleThreadSize_ idle (pool st)
           /\ (0 <= idleThreadSize_ (pool st) ->
               idleThreadSize_ (pool st) + Z.of_nat n <= INT32_MAX ->
               idle = idleThreadSize_ (pool st) + Z.of_nat n).
Proof.
  induction n as [|n IH]; intros i st Hth.
  - exists st. simpl. rewrite app_nil_r. repeat split.
    exists (idleThreadSize_ (pool st)). split; [by destruct st as [[] ? ?]|]. lia.
  - simpl start_threads. rewrite (Hth i) by lia.
    set (st1 := set_pool _ _).
    destruct (IH (i + 1) st1) as (st' & Hs & Ho & Hg & idle & Hp & Hi).
    { intros k Hk. simpl. apply Hth. lia. }
    exists st'. split; [exact Hs|]. split.
    { rewrite Ho. simpl. by rewrite <- app_assoc. }
    split; [exact Hg|].
    exists idle. split; [rewrite Hp; reflexivity|].
    intros H0 Hmax. simpl in Hi.
    rewrite wrap_int_id in Hi by (unfold in_int, INT32_MIN, INT32_MAX in *; lia).
    rewrite Hi; lia.
Qed.

Lemma lookup_workers_from (n : nat) :
  forall (id : Z) (j : nat),
    @workers_from T id n !! j
    = if decide (j < n)%nat then Some (new_worker (id + Z.of_nat j)) else None.
Proof.
  induction n as [|n IH]; intros id j.
  - destruct (decide (j < 0)%nat); [lia|]. by destruct j.
  - destruct j as [|j].
    + simpl. rewrite Z.add_0_r. destruct (decide (0 < S n)%nat); [done|lia].
    + change (workers_from id (S n) !! S j) with (@workers_from T (id + 1) n !! j).
      rewrite IH.
      destruct (decide (j < n)%nat), (decide (S j < S n)%nat); try lia; try done.
      do 2 f_equal. lia.
Qed.

Lemma length_workers_from (n : nat) (id : Z) : length (@workers_from T id n) = n.
Proof. revert id. induction n as [|n IH]; intros id; simpl; [done|]. by rewrite IH. Qed.

(** What [start] does on a process in which no [Thread] was made before. *)
Lemma start_blank_spec (n : Z) st0 :
  blank st0 -> 0 <= n <= INT32_MAX ->
  exists st idle,
    start n st0 = Some st
    /\ os_threads st = workers_from 0 (Z.to_nat n)
    /\ generateId_ st = n
    /\ (forall k, threads_ (pool st) !! k
                  = if decide (0 <= k < n) then Some {| threadId_ := k |} else None)
    /\ pool st
       = set_idleThreadSize_ idle
           (set_threads_ (threads_ (pool st))
              (set_curThreadSize_ n
                 (set_initThreadSize_ n (set_isPoolRunning_ true (pool st0)))))
    /\ (0 <= idleThreadSize_ (pool st0) ->
        idleThreadSize_ (pool st0) + n <= INT32_MAX ->
        idle = idleThreadSize_ (pool st0) + n).
Proof.
  intros (Hos & Hths & Hg) Hn. unfold start.
  set (st1 := set_pool _ st0).
  assert (generateId_ st1 = 0) as Hg1 by (simpl; done).
  destruct (create_threads_spec (Z.to_nat n) st1) as [Hgen Hlook].
  { lia. }
  { rewrite Hg1. lia. }
  { intros k _. simpl. rewrite Hths. apply lookup_empty. }
  destruct (create_threads_pool (Z.to_nat n) st1) as (ths & Hp & Ho).
  destruct (start_threads_spec (Z.to_nat n) 0 (create_threads (Z.to_nat n) st1))
    as (st & Hs & Hos' & Hg' & idle & Hp' & Hidle).
  { intros k Hk. rewrite Hlook, Hg1. destruct (decide _); [done|lia]. }
  exists st, idle. split; [exact Hs|].
  assert (forall k, threads_ (pool st) !! k
                    = if decide (0 <= k < n) then Some {| threadId_ := k |} else None)
    as Hfinal.
  { intros k. rewrite Hp'. simpl. rewrite Hlook, Hg1. simpl. rewrite Hths.
    rewrite lookup_empty. repeat destruct (decide _); try lia; done. }
  split; [rewrite Hos', Ho; simpl; by rewrite Hos|].
  split; [rewrite Hg', Hgen, Hg1; lia|].
  split; [exact Hfinal|].
  split.
  - rewrite Hp', Hp. reflexivity.
  - intros H0 Hmax. rewrite Hp in Hidle. simpl in Hidle. rewrite Hidle; lia.
Qed.

(** X1.  On a process in which no [Thread] was made before, [start(n)]
    with [0 <= n] goes through: it makes the threads 0, 1, ..., n-1 in this
    order, each not yet in its loop, files each under its identifier in
    [threads_] and nothing else, leaves the counter of identifiers at [n],
    sets the running flag and the initial and current counts to [n], adds
    [n] to the idle count, and leaves the queue and the configuration
    alone. *)
Theorem start_on_blank_process (n : Z) st0 :
  blank st0 -> 0 <= n <= INT32_MAX ->
  exists st idle,
    start n st0 = Some st
    /\ os_threads st = workers_from 0 (Z.to_nat n)
    /\ generateId_ st = n
    /\ (forall k, threads_ (pool st) !! k
                  = if decide (0 <= k < n) then Some {| threadId_ := k |} else None)
    /\ pool st
       = set_idleThreadSize_ idle
           (set_threads_ (threads_ (pool st))
              (set_curThreadSize_ n
                 (set_initThreadSize_ n (set_isPoolRunning_ true (pool st0)))))
    /\ (0 <= idleThreadSize_ (pool st0) ->
        idleThreadSize_ (pool st0) + n <= INT32_MAX ->
        idle = idleThreadSize_ (pool st0) + n).
Proof. apply start_blank_spec. Qed.

(** X2.  [start] looks its threads up under the keys 0, 1, ..., but files
    them under the identifiers the static counter hands out.  Once the
    counter has moved (a [Thread] was made before in the process, for
    another pool say), [start(n)] with [n >= 1] on a pool whose [threads_]
    is empty finds nothing under key 0: [threads_[0]] is a null pointer and
    [->start()] on it is undefined. *)
Theorem start_after_counter_moved (n : Z) st0 :
  threads_ (pool st0) = ∅ ->
  0 < generateId_ st0 -> 1 <= n -> generateId_ st0 + n <= INT32_MAX ->
  start n st0 = None.
Proof.
  intros Hths Hg Hn Hmax. unfold start.
  set (st1 := set_pool _ st0).
  destruct (create_threads_spec (Z.to_nat n) st1) as [_ Hlook].
  { simpl. lia. }
  { simpl. lia. }
  { intros k _. simpl. rewrite Hths. apply lookup_empty. }
  destruct (Z.to_nat n) as [|m] eqn:Hm; [lia|].
  simpl start_threads. rewrite Hlook. simpl generateId_.
  destruct (decide _); [lia|]. simpl. rewrite Hths, lookup_empty. done.
Qed.

End Start.

(** ** Identifiers, the table of threads and the counts *)

Section Census.

Context {T : Type}.
Implicit Types (p : ThreadPool T) (w : Worker T) (st : Process T) (op : Op T).

Lemma count_where_nonneg (f : Worker T -> bool) (l : list (Worker T)) :
  0 <= count_where f l.
Proof. induction l as [|w l IH]; simpl; [done|]. destruct (f w); lia. Qed.

Lemma count_where_app (f : Worker T -> bool) (l1 l2 : list (Worker T)) :
  count_where f (l1 ++ l2) = count_where f l1 + count_where f l2.
Proof. induction l1 as [|w l1 IH]; simpl; [done|]. rewrite IH. lia. Qed.

Lemma count_where_insert (f : Worker T -> bool) (l : list (Worker T)) :
  forall (i : nat) w w',
    l !! i = Some w ->
    count_where f (<[i := w']> l)
    = count_where f l - (if f w then 1 else 0) + (if f w' then 1 else 0).
Proof.
  induction l as [|x l IH]; intros [|i] w w' H; simpl in *; try done.
  - simplify_eq. lia.
  - rewrite (IH i w w' H). lia.
Qed.

Lemma count_where_le (f g : Worker T -> bool) (l : list (Worker T)) :
  (forall w, f w = true -> g w = true) ->
  count_where f l <= count_where g l.
Proof.
  intros Hfg. induction l as [|w l IH]; simpl; [done|].
  destruct (f w) eqn:Hf; [rewrite (Hfg w Hf); lia|]. destruct (g w); lia.
Qed.

Lemma count_workers_from (f : Worker T -> bool) (n : nat) (id : Z) :
  (forall k, f (new_worker k) = true) ->
  count_where f (workers_from id n) = Z.of_nat n.
Proof.
  intros Hf. revert id. induction n as [|n IH]; intros id; [done|].
  simpl count_where. rewrite Hf, IH. lia.
Qed.

Lemma count_workers_from_none (f : Worker T -> bool) (n : nat) (id : Z) :
  (forall k, f (new_worker k) = false) ->
  count_where f (workers_from id n) = 0.
Proof.
  intros Hf. revert id. induction n as [|n IH]; intros id; [done|].
  simpl count_where. by rewrite Hf, IH.
Qed.

Lemma count_where_lookup (f : Worker T -> bool) (l : list (Worker T)) :
  forall (i : nat) w, l !! i = Some w -> f w = true -> 1 <= count_where f l.
Proof.
  induction l as [|x l IH]; intros [|i] w H Hf; simpl in *; try done.
  - simplify_eq. rewrite Hf. pose proof (count_where_nonneg f l). lia.
  - pose proof (IH i w H Hf). destruct (f x); lia.
Qed.

Lemma executing_le_alive st : executing st <= alive st.
Proof.
  apply count_where_le. intros w. unfold is_exec, has_returned.
  by destruct (pc w).
Qed.

(** What a step of [threadFunc] says about where the thread was. *)
Lemma threadFunc_step_from a w p p' w' evs :
  threadFunc_step a w p = Some (p', w', evs) ->
  has_returned w = false
  /\ threadid w' = threadid w
  /\ (is_exec w = true ->
      p' = set_idleThreadSize_ (wrap_int (idleThreadSize_ p + 1)) p
      /\ pc w' = LoopHead /\ evs = []).
Proof.
  intros H. pose proof (threadFunc_step_effect _ _ _ _ _ _ H) as E.
  unfold threadFunc_step in H. unfold has_returned, is_exec.
  split; [by destruct a, (pc w)|].
  split; [by destruct E|].
  destruct a, (pc w) eqn:Hpc; try discriminate; intros _.
  unfold after_task in H. by simplify_eq.
Qed.

(** No step takes a thread away from the list of threads. *)
Lemma step_threads_grow op st st' evs :
  step op st = Some (st', evs) ->
  (length (os_threads st) <= length (os_threads st'))%nat.
Proof.
  intros H. step_cases H; simpl; try done.
  - apply start_pool in Hstart as (_ & _ & _ & _ & ->). lia.
  - apply admission_cases in Hadm as [(-> & _ & _ & -> & ->)|(-> & _ & Hacc)]; [done|].
    apply accept_task_cases in Hacc as (-> & [(_ & ->)|(_ & (id & ->) & _)]);
      [done|]. rewrite length_app. simpl. lia.
  - by rewrite length_insert.
Qed.

Lemma run_threads_grow ops :
  forall st st' evs,
    run ops st = Some (st', evs) ->
    (length (os_threads st) <= length (os_threads st'))%nat.
Proof.
  induction ops as [|op ops IH]; simpl; intros st st' evs H.
  - by simplify_eq.
  - destruct (step op st) as [[st1 evs1]|] eqn:H1; [|done].
    destruct (run ops st1) as [[st2 evs2]|] eqn:H2; [|done].
    simplify_eq. apply step_threads_grow in H1. apply IH in H2. lia.
Qed.

Lemma accept_task_spawn sp st st' evs :
  accept_task sp st = (st', evs) ->
  needs_new_thread
    (set_taskSize_ (wrap_int (taskSize_ (pool st) + 1))
       (set_taskQue_ (taskQue_ (pool st) ++ [sp]) (pool st))) = true ->
  threads_ (pool st) !! generateId_ st = None ->
  os_threads st' = os_threads st ++ [new_worker (generateId_ st)]
  /\ generateId_ st' = wrap_int (generateId_ st + 1)
  /\ threads_ (pool st')
     = <[generateId_ st := {| threadId_ := generateId_ st |}]> (threads_ (pool st)).
Proof.
  unfold accept_task. cbv zeta. intros H Hn Hfree. rewrite Hn in H.
  simpl in H. unfold emplace, getId in H. simpl in H. rewrite Hfree in H.
  rewrite lookup_insert_eq in H. simpl in H. by simplify_eq.
Qed.

Lemma pool_effect_table w p p' w' evs :
  pool_effect w p p' w' evs ->
  (threads_ p' = threads_ p /\ has_returned w' = false)
  \/ (threads_ p' = delete (threadid w) (threads_ p) /\ has_returned w' = true).
Proof.
  intros E. destruct E; simpl; auto.
  left. split; [done|]. subst pc'. unfold has_returned. simpl. by destruct (decide _).
Qed.

(** Identifiers and table after a step of a thread. *)
Lemma thread_step_roster (i : nat) (a : WorkerAct) st st' evs :
  ids_in_order st -> table_ok st ->
  step (Run i a) st = Some (st', evs) ->
  ids_in_order st' /\ table_ok st'.
Proof.
  intros [Hg Hid] [Ht1 Ht2] H.
  unfold step in H.
  destruct (os_threads st !! i) as [w|] eqn:Hw; simpl in H; [|discriminate].
  destruct (threadFunc_step a w (pool st)) as [[[p' w'] e]|] eqn:Hf;
    simpl in H; [|discriminate].
  simplify_eq.
  destruct (threadFunc_step_from _ _ _ _ _ _ Hf) as (Hlive & Hsame & _).
  apply threadFunc_step_effect, pool_effect_table in Hf.
  assert (i < length (os_threads st))%nat as Hi by (by eapply lookup_lt_Some).
  assert (threadid w = Z.of_nat i) as Hwi by (by apply Hid).
  split; [split|split]; simpl.
  - by rewrite length_insert.
  - intros j x Hj. destruct (decide (j = i)) as [->|Hne].
    + rewrite list_lookup_insert_eq in Hj by done. simplify_eq. congruence.
    + rewrite list_lookup_insert_ne in Hj by done. by apply Hid.
  - intros k th Hk.
    assert (threads_ (pool st) !! k = Some th
            /\ (has_returned w' = true -> k <> Z.of_nat i)) as [Hk' Hki].
    { destruct Hf as [[E Hr]|[E Hr]]; rewrite E in Hk.
      - split; [done|]. rewrite Hr. done.
      - rewrite Hwi in Hk. apply lookup_delete_Some in Hk as [? ?]. done. }
    destruct (Ht1 k th Hk') as (-> & H0 & x & Hx & Hxr).
    split; [done|]. split; [done|].
    destruct (decide (Z.to_nat k = i)) as [E|Hne].
    + exists w'. rewrite E, list_lookup_insert_eq by done. split; [done|].
      destruct (has_returned w') eqn:Hr; [|done]. exfalso. apply Hki; [done|lia].
    + exists x. by rewrite list_lookup_insert_ne.
  - intros j x Hj Hxr. destruct (decide (j = i)) as [->|Hne].
    + rewrite list_lookup_insert_eq in Hj by done. simplify_eq.
      destruct Hf as [[E _]|[_ Hr]]; [|congruence].
      rewrite E. by apply (Ht2 i w).
    + rewrite list_lookup_insert_ne in Hj by done.
      pose proof (Ht2 j x Hj Hxr) as Hold.
      destruct Hf as [[E _]|[E _]]; rewrite E; [done|].
      rewrite lookup_delete_ne; [done|]. rewrite Hwi. lia.
Qed.

(** Identifiers and table after a step that is not [start]. *)
Lemma step_roster op st st' evs :
  is_start op = false ->
  ids_in_order st -> table_ok st ->
  step op st = Some (st', evs) ->
  Z.of_nat (length (os_threads st')) <= INT32_MAX ->
  ids_in_order st' /\ table_ok st'.
Proof.
  intros Hns Hids Htab H Hmax.
  assert (forall i a, op = Run i a -> ids_in_order st' /\ table_ok st') as Hrun.
  { intros i a ->. by eapply thread_step_roster. }
  destruct Hids as [Hg Hid]. destruct Htab as [Ht1 Ht2].
  assert (forall p', threads_ p' = threads_ (pool st) ->
            ids_in_order (set_pool p' st) /\ table_ok (set_pool p' st)) as Hframe.
  { intros p' E. split; [done|]. split; simpl; rewrite E; [apply Ht1|apply Ht2]. }
  step_cases H; try discriminate.
  - apply Hframe. unfold setMode. by destruct (checkRunningState _).
  - by apply Hframe.
  - apply Hframe. unfold setTaskQueMaxThreshHold. by destruct (checkRunningState _).
  - apply Hframe. unfold setThreadSizeThreshHold. destruct (checkRunningState _); [done|].
    by destruct (decide _).
  - apply admission_cases in Hadm as [(-> & _ & _ & -> & ->)|(-> & _ & Hacc)]; [done|].
    pose proof (accept_task_cases _ _ _ _ Hacc) as (_ & [(_ & ->)|(Hn & _ & _ & _)]).
    { by apply Hframe. }
    assert (threads_ (pool st) !! generateId_ st = None) as Hfree.
    { destruct (threads_ (pool st) !! generateId_ st) as [th|] eqn:E; [|done].
      apply Ht1 in E as (_ & _ & w & Hw & _).
      apply lookup_lt_Some in Hw. rewrite Hg in Hw. lia. }
    destruct (accept_task_spawn _ _ _ _ Hacc Hn Hfree) as (Ho & Hg' & Hths).
    simpl in Hmax. rewrite Ho, length_app in Hmax. simpl in Hmax.
    assert (generateId_ st' = generateId_ st + 1) as Hg1.
    { rewrite Hg'. apply wrap_int_id. unfold in_int, INT32_MIN, INT32_MAX in *. lia. }
    split; [split|split].
    + rewrite Hg1, Ho, length_app, Hg. simpl. lia.
    + intros i w. rewrite Ho. intros [Hi|[Hl Hi]]%lookup_app_Some; [by apply Hid|].
      destruct (i - length (os_threads st))%nat as [|?] eqn:Hd; [|done].
      simpl in Hi. simplify_eq. simpl. lia.
    + intros k th. rewrite Hths, Ho.
      destruct (decide (k = generateId_ st)) as [->|Hne].
      * rewrite lookup_insert_eq. intros ?; simplify_eq.
        split; [done|]. split; [lia|].
        exists (new_worker (generateId_ st)). split; [|done].
        apply list_lookup_middle. lia.
      * rewrite lookup_insert_ne by done. intros E.
        apply Ht1 in E as (-> & Hk & w & Hw & Hr).
        split; [done|]. split; [done|]. exists w. split; [|done].
        by apply lookup_app_l_Some.
    + intros i w. rewrite Hths, Ho.
      intros [Hi|[Hl Hi]]%lookup_app_Some Hr.
      * rewrite lookup_insert_ne; [by apply (Ht2 i w)|].
        apply lookup_lt_Some in Hi. lia.
      * destruct (i - length (os_threads st))%nat as [|?] eqn:Hd; [|done].
        assert (Z.of_nat i = generateId_ st) as -> by lia.
        by rewrite lookup_insert_eq.
  - by apply Hframe.
  - done.
  - by apply (Hrun i a).
Qed.

Lemma run_roster ops :
  forall st st' evs,
    Forall (fun op => is_start op = false) ops ->
    ids_in_order st -> table_ok st ->
    run ops st = Some (st', evs) ->
    Z.of_nat (length (os_threads st')) <= INT32_MAX ->
    ids_in_order st' /\ table_ok st'.
Proof.
  induction ops as [|op ops IH]; simpl; intros st st' evs Hops Hids Htab H Hmax.
  - by simplify_eq.
  - apply Forall_cons in Hops as [Hop Hops].
    destruct (step op st) as [[st1 evs1]|] eqn:H1; [|done].
    destruct (run ops st1) as [[st2 evs2]|] eqn:H2; [|done].
    simplify_eq.
    destruct (step_roster op st st1 evs1 Hop Hids Htab H1) as [Hids1 Htab1].
    { apply run_threads_grow in H2. lia. }
    by apply (IH st1 st' evs2).
Qed.

Lemma start_roster (n : Z) st0 st :
  blank st0 -> 0 <= n <= INT32_MAX -> start n st0 = Some st ->
  ids_in_order st /\ table_ok st.
Proof.
  intros Hb Hn Hs.
  destruct (start_blank_spec n st0 Hb Hn)
    as (st1 & idle & Hs1 & Ho & Hg & Hth & _).
  assert (st1 = st) as -> by congruence. clear Hs1.
  split; [split|split].
  - rewrite Ho, length_workers_from, Hg. lia.
  - intros i w. rewrite Ho, lookup_workers_from.
    destruct (decide _); [|done]. intros ?; simplify_eq. simpl. lia.
  - intros k th. rewrite Hth. destruct (decide _) as [Hk|]; [|done].
    intros ?; simplify_eq. split; [done|]. split; [lia|].
    exists (new_worker k). rewrite Ho, lookup_workers_from.
    destruct (decide _); [|lia]. split; [|done]. do 2 f_equal. lia.
  - intros i w. rewrite Ho, lookup_workers_from.
    destruct (decide _); [|done]. intros ? _. rewrite Hth.
    destruct (decide _); [done|lia].
Qed.

(** X3.  In a pool that is started before any thread exists (and not
    started again), the [i]-th thread ever created runs [threadFunc] with
    the identifier [i]: no two threads share an identifier, not even a
    thread that has returned and one created later, as long as fewer than
    2^31 threads are created in all. *)
Theorem thread_ids_never_reused
    (n : Z) st0 st (ops : list (Op T)) st' evs :
  blank st0 -> 0 <= n ->
  start n st0 = Some st ->
  Forall (fun op => is_start op = false) ops ->
  run ops st = Some (st', evs) ->
  Z.of_nat (length (os_threads st')) <= INT32_MAX ->
  (forall i w, os_threads st' !! i = Some w -> threadid w = Z.of_nat i)
  /\ NoDup (threadid <$> os_threads st')
  /\ generateId_ st' = Z.of_nat (length (os_threads st')).
Proof.
  intros Hb Hn Hs Hops Hrun Hmax.
  assert (n <= INT32_MAX) as Hn'.
  { pose proof (start_pool _ _ _ Hs) as (_ & _ & _ & _ & Hl).
    apply run_threads_grow in Hrun. lia. }
  destruct (start_roster n st0 st Hb ltac:(lia) Hs) as [Hids Htab].
  destruct (run_roster ops st st' evs Hops Hids Htab Hrun Hmax) as [[Hg Hid] _].
  split; [exact Hid|]. split; [|exact Hg].
  apply NoDup_alt. intros i j k Hi Hj.
  rewrite list_lookup_fmap in Hi, Hj.
  destruct (os_threads st' !! i) as [wi|] eqn:Ei; [|done].
  destruct (os_threads st' !! j) as [wj|] eqn:Ej; [|done].
  simpl in *. simplify_eq. apply Hid in Ei. apply Hid in Ej. lia.
Qed.

(** X4.  In a pool that is started before any thread exists (and not
    started again), [threads_] holds exactly the threads that have not
    returned: a thread's identifier is a key of [threads_] if and
    only if its [threadFunc] has not returned.  So what the destructor
    waits for, [threads_.size() == 0], holds if and only if every thread
    has returned. *)
Theorem destructor_waits_for_every_thread
    (n : Z) st0 st (ops : list (Op T)) st' evs :
  blank st0 -> 0 <= n ->
  start n st0 = Some st ->
  Forall (fun op => is_start op = false) ops ->
  run ops st = Some (st', evs) ->
  Z.of_nat (length (os_threads st')) <= INT32_MAX ->
  (forall w, w ∈ os_threads st' ->
     (has_returned w = false <-> is_Some (threads_ (pool st') !! threadid w)))
  /\ (all_exited (pool st') = true
      <-> Forall (fun w => has_returned w = true) (os_threads st')).
Proof.
  intros Hb Hn Hs Hops Hrun Hmax.
  assert (n <= INT32_MAX) as Hn'.
  { pose proof (start_pool _ _ _ Hs) as (_ & _ & _ & _ & Hl).
    apply run_threads_grow in Hrun. lia. }
  destruct (start_roster n st0 st Hb ltac:(lia) Hs) as [Hids Htab].
  destruct (run_roster ops st st' evs Hops Hids Htab Hrun Hmax)
    as [[Hg Hid] [Ht1 Ht2]].
  split.
  - intros w [i Hi]%list_elem_of_lookup. rewrite (Hid i w Hi). split.
    + intros Hr. rewrite (Ht2 i w Hi Hr). eauto.
    + intros [th Hth]. apply Ht1 in Hth as (_ & _ & x & Hx & Hxr).
      rewrite Nat2Z.id in Hx. by simplify_eq.
  - unfold all_exited. rewrite bool_decide_eq_true. split.
    + intros Hempty. apply Forall_lookup. intros i w Hi.
      destruct (has_returned w) eqn:Hr; [done|].
      pose proof (Ht2 i w Hi Hr) as Hk. rewrite Hempty, lookup_empty in Hk. done.
    + intros Hall. apply map_empty. intros k.
      destruct (threads_ (pool st') !! k) as [th|] eqn:Hk; [|done].
      apply Ht1 in Hk as (_ & _ & x & Hx & Hxr).
      eapply Forall_lookup_1 in Hall; [|exact Hx]. congruence.
Qed.

(** The counts after a step of a thread. *)
Lemma thread_step_census (m x : Z) (i : nat) (a : WorkerAct) st st' evs :
  ints_ok (pool st) -> 0 <= m <= INT32_MAX -> 0 <= x ->
  census_upto m x st ->
  step (Run i a) st = Some (st', evs) ->
  census_upto m x st'.
Proof.
  intros (Hi & Ht & Hc & Hd & _) Hm Hx [Hsum Hal] H.
  pose proof (executing_le_alive st) as Hea.
  pose proof (count_where_nonneg is_exec (os_threads st)) as He0.
  unfold step in H.
  destruct (os_threads st !! i) as [w|] eqn:Hw; simpl in H; [|discriminate].
  destruct (threadFunc_step a w (pool st)) as [[[p' w'] e]|] eqn:Hf;
    simpl in H; [|discriminate].
  simplify_eq.
  destruct (threadFunc_step_from _ _ _ _ _ _ Hf) as (Hlive & _ & Hexec).
  apply threadFunc_step_effect in Hf.
  unfold census_upto, executing, alive in *. simpl.
  rewrite !(count_where_insert _ _ i w w' Hw). rewrite Hlive. simpl.
  unfold in_int, INT32_MIN, INT32_MAX in *.
  assert (is_exec w = true -> 1 <= count_where is_exec (os_threads st)) as He1
    by apply (count_where_lookup is_exec _ i w Hw).
  remember (count_where is_exec (os_threads st)) as ce eqn:Ece.
  remember (count_where (fun w => negb (has_returned w)) (os_threads st)) as ca eqn:Eca.
  clear Ece Eca.
  destruct (is_exec w) eqn:Hex.
  - specialize (He1 eq_refl).
    destruct (Hexec eq_refl) as (-> & Hpc & _).
    unfold is_exec, has_returned. rewrite Hpc. simpl.
    rewrite wrap_int_id by (unfold in_int, INT32_MIN, INT32_MAX; lia). lia.
  - clear Hexec. unfold is_exec in Hex.
    destruct Hf; simpl; unfold is_exec, has_returned; simpl.
    + lia.
    + lia.
    + subst pc'. destruct (decide _); simpl; lia.
    + rewrite wrap_int_id by (unfold in_int, INT32_MIN, INT32_MAX; lia). lia.
    + rewrite !wrap_int_id by (unfold in_int, INT32_MIN, INT32_MAX; lia). lia.
    + rewrite H in Hex. discriminate.
Qed.

(** The counts after a step that is not [start]. *)
Lemma step_census (m x : Z) op st st' evs :
  is_start op = false ->
  ints_ok (pool st) -> 0 <= m <= INT32_MAX -> 0 <= x ->
  census_upto m x st ->
  step op st = Some (st', evs) ->
  census_upto m x st'.
Proof.
  intros Hns Hok Hm Hx Hcen H.
  assert (forall i a, op = Run i a -> census_upto m x st') as Hrun.
  { intros i a ->. by eapply thread_step_census. }
  destruct Hok as (Hi & Ht & Hc & Hd & _). destruct Hcen as [Hsum Hal].
  pose proof (executing_le_alive st) as Hea.
  pose proof (count_where_nonneg is_exec (os_threads st)) as He0.
  assert (forall p', idleThreadSize_ p' = idleThreadSize_ (pool st) ->
            curThreadSize_ p' = curThreadSize_ (pool st) ->
            census_upto m x (set_pool p' st)) as Hframe.
  { intros p' E1 E2. unfold census_upto, executing, alive in *. simpl.
    rewrite E1, E2. done. }
  step_cases H; try discriminate.
  - apply Hframe; unfold setMode; by destruct (checkRunningState _).
  - by apply Hframe.
  - apply Hframe; unfold setTaskQueMaxThreshHold; by destruct (checkRunningState _).
  - apply Hframe; unfold setThreadSizeThreshHold; destruct (checkRunningState _);
      try done; by destruct (decide _).
  - apply admission_cases in Hadm as [(-> & _ & _ & -> & ->)|(-> & _ & Hacc)]; [done|].
    apply accept_task_cases in Hacc as (-> & [(_ & ->)|(Hn & (id & Ho) & _ & Hp)]).
    { by apply Hframe. }
    unfold needs_new_thread in Hn. simpl in Hn.
    apply andb_true_iff in Hn as [_ Hn%Z.ltb_lt].
    unfold census_upto, executing, alive in *. simpl. rewrite Ho, Hp. simpl.
    rewrite !count_where_app. simpl.
    unfold in_int, INT32_MIN, INT32_MAX in *.
    rewrite !wrap_int_id by (unfold in_int, INT32_MIN, INT32_MAX; lia). lia.
  - by apply Hframe.
  - done.
  - by apply (Hrun i a).
Qed.

(** [start] as one step is [start] statement by statement with no thread
    moving in between. *)
Lemma start_run_uninterrupted (n : nat) :
  forall (i : Z) st,
    start_run (concat (replicate n [LaunchNext; CountIdle]))
      {| sproc := st; index := i; todo := n; launched := false |}
    = (st' ← start_threads n i st;
       Some {| sproc := st'; index := i + Z.of_nat n; todo := 0; launched := false |}).
Proof.
  induction n as [|n IH]; intros i st.
  - simpl. by rewrite Z.add_0_r.
  - simpl. destruct (threads_ (pool st) !! i) as [t|]; simpl; [|done].
    rewrite IH. simpl.
    destruct (start_threads n (i + 1) _) as [st'|]; simpl; [|done].
    do 2 f_equal. lia.
Qed.

Lemma start_is_start_run (n : Z) st :
  start n st
  = sproc <$> start_run (concat (replicate (Z.to_nat n) [LaunchNext; CountIdle]))
                (start_begin n st).
Proof.
  unfold start_begin. rewrite start_run_uninterrupted. unfold start.
  by destruct (start_threads _ _ _).
Qed.

(** The counts when [start] enters its second loop. *)
Lemma start_begin_inv (n : Z) st0 :
  blank st0 -> ints_ok (pool st0) -> idleThreadSize_ (pool st0) = 0 ->
  0 <= n <= INT32_MAX ->
  start_inv (start_begin n st0).
Proof.
  intros (Hos & _ & _) (Hi & Ht & Hc & Hd & Hs & Hq) Hidle Hn.
  unfold start_inv, start_begin. simpl.
  match goal with |- context [create_threads ?k ?s0] =>
    destruct (create_threads_pool k s0) as (ths & Hp & Ho) end.
  rewrite Hp. simpl in Ho |- *.
  assert (in_int n) as Hin by (unfold in_int, INT32_MIN, INT32_MAX in *; lia).
  split; [unfold ints_ok; simpl; auto 10|].
  split; [lia|]. split; [done|].
  unfold census_upto, executing, alive. rewrite Hp, Ho, Hos. simpl. lia.
Qed.

(** The counts after a statement of [start], or a step of a thread in
    between. *)
Lemma start_step_inv (o : StartOp) (s s' : @StartState T) :
  start_inv s -> start_step o s = Some s' -> start_inv s'.
Proof.
  destruct s as [pr ix td la]. unfold start_inv. simpl.
  intros (Hok & Hmax & Hl & Hcen) H.
  pose proof (executing_le_alive pr) as Hea.
  pose proof (count_where_nonneg is_exec (os_threads pr)) as He0.
  destruct o.
  - simpl in H. destruct la; [done|]. destruct td as [|k]; [done|].
    destruct (threads_ (pool pr) !! ix) as [t|]; simpl in H; [|done].
    simplify_eq. simpl.
    split; [done|]. split; [done|]. split; [lia|].
    destruct Hcen as [Hsum Hal].
    unfold census_upto, executing, alive in *. simpl.
    rewrite !count_where_app. simpl. lia.
  - simpl in H. destruct la; [|done]. destruct td as [|k]; [done|].
    simplify_eq. simpl.
    destruct Hok as (Hi & Ht & Hc & Hd & Hs & Hq). destruct Hcen as [Hsum Hal].
    unfold census_upto, executing, alive in *. simpl.
    unfold in_int, INT32_MIN, INT32_MAX in *.
    rewrite wrap_int_id by (unfold in_int, INT32_MIN, INT32_MAX; lia).
    split; [unfold ints_ok, in_int, INT32_MIN, INT32_MAX; simpl; repeat split; lia|].
    split; [lia|]. split; [done|]. lia.
  - unfold start_step in H. cbn [sproc index todo launched] in H.
    destruct (step (Run i a) pr) as [[st' evs]|] eqn:Hstep; simpl in H; [|done].
    simplify_eq. simpl.
    split; [by eapply (step_ints_ok (Run i a))|].
    split; [done|]. split; [done|].
    eapply thread_step_census; [done| | |done|done].
    + lia.
    + destruct la; [specialize (Hl eq_refl)|]; lia.
Qed.

Lemma start_run_inv (os : list StartOp) :
  forall s s' : @StartState T,
    start_inv s -> start_run os s = Some s' -> start_inv s'.
Proof.
  induction os as [|o os IH]; simpl; intros s s' Hinv H.
  - by simplify_eq.
  - destruct (start_step o s) as [s1|] eqn:H1; simpl in H; [|done].
    apply (IH s1 s'); [|done]. by eapply start_step_inv.
Qed.

(** X5.  The idle count and [start].  [start] is followed statement by
    statement, the threads it has started running in between; tasks may
    have been queued before.  While [start] is in its loop, the idle count
    is the current count, less the threads that are running a task, less
    the increments [start] has still to make: it can be negative.  Once
    [start] has returned, and as long as the pool is not started again, the
    idle count is the current count less the threads that are running a
    task, and lies between 0 and the current count. *)
Theorem idle_count_is_current_less_executing
    (n : Z) st0 (sops : list StartOp) (s : @StartState T) :
  blank st0 -> ints_ok (pool st0) -> idleThreadSize_ (pool st0) = 0 ->
  0 <= n <= INT32_MAX ->
  start_run sops (start_begin n st0) = Some s ->
  idleThreadSize_ (pool (sproc s)) + executing (sproc s)
  = curThreadSize_ (pool (sproc s)) - Z.of_nat (todo s)
  /\ forall (ops : list (Op T)) st' evs,
       todo s = 0%nat ->
       Forall args_ok ops ->
       Forall (fun op => is_start op = false) ops ->
       run ops (sproc s) = Some (st', evs) ->
       idleThreadSize_ (pool st') + executing st' = curThreadSize_ (pool st')
       /\ 0 <= idleThreadSize_ (pool st') <= curThreadSize_ (pool st').
Proof.
  intros Hb Hok Hidle Hn Hs.
  pose proof (start_run_inv sops _ _ (start_begin_inv n st0 Hb Hok Hidle Hn) Hs)
    as (Hok1 & _ & Hl & Hcen).
  split; [exact (proj1 Hcen)|].
  intros ops st' evs Hdone Hargs Hops Hrun.
  assert (launched s = false) as El.
  { destruct (launched s); [specialize (Hl eq_refl); lia|done]. }
  rewrite Hdone, El in Hcen. simpl in Hcen.
  assert (ints_ok (pool st') /\ census_upto 0 0 st') as [_ [Hsum Hal]].
  { apply (run_invariant (fun s => ints_ok (pool s) /\ census_upto 0 0 s)
             (fun op => args_ok op /\ is_start op = false))
      with (ops := ops) (st := sproc s) (st' := st') (evs := evs); [| |done|done].
    - intros op s1 s2 e [Ha Hns] [Hk Hc] Hstep. split.
      + by eapply step_ints_ok.
      + eapply step_census; [done|done| | |done|done]; unfold INT32_MAX; lia.
    - by apply Forall_and. }
  pose proof (executing_le_alive st').
  pose proof (count_where_nonneg is_exec (os_threads st')).
  unfold executing in *. lia.
Qed.

(** What a fixed pool keeps, as an invariant of the steps. *)
Lemma step_fixed (n : Z) (len : nat) (ths : gmap Z Thread) op st st' evs :
  is_start op = false -> is_setMode op = false ->
  (poolMode_ (pool st) = MODE_FIXED
   /\ curThreadSize_ (pool st) = n
   /\ length (os_threads st) = len
   /\ Forall (fun w => pc w <> InWaitFor) (os_threads st)
   /\ (isPoolRunning_ (pool st) = true -> threads_ (pool st) = ths)) ->
  step op st = Some (st', evs) ->
  poolMode_ (pool st') = MODE_FIXED
  /\ curThreadSize_ (pool st') = n
  /\ length (os_threads st') = len
  /\ Forall (fun w => pc w <> InWaitFor) (os_threads st')
  /\ (isPoolRunning_ (pool st') = true -> threads_ (pool st') = ths).
Proof.
  intros Hns Hnm (Hm & Hc & Hl & Hpc & Hth) H. revert Hc Hl.
  step_cases H; try discriminate; simpl; intros Hc Hl.
  - done.
  - unfold setTaskQueMaxThreshHold. by destruct (checkRunningState _).
  - unfold setThreadSizeThreshHold. destruct (checkRunningState _); [done|].
    by destruct (decide _).
  - apply admission_cases in Hadm as [(-> & _ & _ & -> & ->)|(-> & _ & Hacc)]; [done|].
    apply accept_task_cases in Hacc as (-> & [(_ & ->)|(Hn & _)]); [done|].
    unfold needs_new_thread in Hn. simpl in Hn. rewrite Hm in Hn. done.
  - done.
  - done.
  - rewrite length_insert.
    assert (Forall (fun w => pc w <> InWaitFor) (<[i := w0]> (os_threads st))
            -> poolMode_ t = MODE_FIXED /\ curThreadSize_ t = n
               /\ (isPoolRunning_ t = true -> threads_ t = ths)
            -> poolMode_ t = MODE_FIXED /\ curThreadSize_ t = n
               /\ length (os_threads st) = len
               /\ Forall (fun w => pc w <> InWaitFor) (<[i := w0]> (os_threads st))
               /\ (isPoolRunning_ t = true -> threads_ t = ths)) as Hgo
      by (intros ? (? & ? & ?); done).
    destruct Hf; simpl.
    + apply Hgo; [|done]. by apply Forall_insert.
    + apply Hgo; [by apply Forall_insert|]. simpl. split; [done|]. split; [done|].
      intros; congruence.
    + apply Hgo; [|done]. apply Forall_insert; [done|]. subst pc'. simpl.
      rewrite Hm. by destruct (decide _).
    + apply Hgo; [by apply Forall_insert|done].
    + eapply Forall_lookup_1 in Hpc; [|exact Hw]. done.
    + apply Hgo; [by apply Forall_insert|done].
Qed.

(** X6.  A pool in fixed mode keeps the threads [start] gave it: as long as
    the mode is not changed and the pool is not started again, [submitTask]
    creates no thread and no thread leaves at an idle timeout, so the
    current count stays what [start] made it, no thread is added, and
    [threads_] is untouched while the pool is running. *)
Theorem fixed_pool_keeps_its_threads
    (n : Z) st0 st (ops : list (Op T)) st' evs :
  blank st0 -> poolMode_ (pool st0) = MODE_FIXED -> 0 <= n <= INT32_MAX ->
  start n st0 = Some st ->
  Forall (fun op => is_start op = false /\ is_setMode op = false) ops ->
  run ops st = Some (st', evs) ->
  poolMode_ (pool st') = MODE_FIXED
  /\ curThreadSize_ (pool st') = n
  /\ length (os_threads st') = Z.to_nat n
  /\ (isPoolRunning_ (pool st') = true -> threads_ (pool st') = threads_ (pool st)).
Proof.
  intros Hb Hm Hn Hs Hops Hrun.
  destruct (start_blank_spec n st0 Hb Hn) as (st1 & idle & Hs1 & Ho & _ & _ & Hp & _).
  assert (st1 = st) as -> by congruence. clear Hs1.
  pose proof (run_invariant
    (fun s => poolMode_ (pool s) = MODE_FIXED
              /\ curThreadSize_ (pool s) = n
              /\ length (os_threads s) = Z.to_nat n
              /\ Forall (fun w => pc w <> InWaitFor) (os_threads s)
              /\ (isPoolRunning_ (pool s) = true -> threads_ (pool s) = threads_ (pool st)))
    (fun op => is_start op = false /\ is_setMode op = false)) as Hinv.
  destruct (Hinv (fun op s s' e '(conj H1 H2) => step_fixed _ _ _ op s s' e H1 H2)
              ops st st' evs Hops) as (? & ? & ? & _ & ?); [|done|done].
  rewrite Hp, Ho, length_workers_from. simpl.
  split; [done|]. split; [done|]. split; [done|]. split; [|done].
  apply Forall_lookup. intros i w. rewrite lookup_workers_from.
  destruct (decide _); [|done]. by intros ?; simplify_eq.
Qed.

(** Which steps signal [exitCond_]. *)
Lemma step_signals_exit op st st' evs :
  step op st = Some (st', evs) ->
  EvNotifyAll exitCond_ ∈ evs ->
  (exists i a, op = Run i a)
  /\ isPoolRunning_ (pool st) = false /\ taskQue_ (pool st) = []
  /\ evs = [EvNotifyAll exitCond_].
Proof.
  intros H Hin.
  assert (forall l : list (Event T), EvNotifyAll exitCond_ ∈ l -> l <> []) as Hne
    by (intros l Hl ->; by apply elem_of_nil in Hl).
  step_cases H; try (by apply elem_of_nil in Hin).
  - apply admission_cases in Hadm as [(-> & _ & _ & -> & ->)|(-> & _ & Hacc)];
      [by apply elem_of_nil in Hin|].
    apply accept_task_cases in Hacc as (-> & _).
    repeat (apply elem_of_cons in Hin as [Hin|Hin]; [congruence|]).
    by apply elem_of_nil in Hin.
  - repeat (apply elem_of_cons in Hin as [Hin|Hin]; [congruence|]).
    by apply elem_of_nil in Hin.
  - destruct Hf; try (by apply elem_of_nil in Hin).
    + eauto 10.
    + simpl in Hin. destruct (bool_decide _);
        repeat (apply elem_of_cons in Hin as [Hin|Hin]; [congruence|]);
        by apply elem_of_nil in Hin.
Qed.

(** X7.  A thread signals [exitCond_] only from the shutdown exit, with the
    running flag cleared and the queue empty: when it does, every task that
    was put into the queue has been taken out of it by some thread, in the
    same order, and the signalling step itself takes none. *)
Theorem threads_leave_after_the_queue_is_drained
    (ops : list (Op T)) st0 st1 evs1 op st2 evs2 :
  taskQue_ (pool st0) = [] ->
  run ops st0 = Some (st1, evs1) ->
  step op st1 = Some (st2, evs2) ->
  EvNotifyAll exitCond_ ∈ evs2 ->
  (exists i a, op = Run i a)
  /\ isPoolRunning_ (pool st1) = false
  /\ emplaced evs1 = popped evs1
  /\ popped evs2 = [] /\ emplaced evs2 = []
  /\ taskQue_ (pool st2) = [].
Proof.
  intros Hq Hrun Hstep Hin.
  destruct (step_signals_exit _ _ _ _ Hstep Hin) as (Hop & Hflag & Hq1 & ->).
  pose proof (run_fifo _ _ _ _ Hrun) as F1. rewrite Hq, Hq1, app_nil_r in F1.
  pose proof (step_fifo _ _ _ _ Hstep) as F2. rewrite Hq1 in F2. simpl in F2.
  done.
Qed.

(** X8.  A negative capacity is no limit: [taskQueMaxThreshHold_] is
    converted to [size_t] in the test, where a negative [int] is at least
    2^64 - 2^31, so [submitTask] accepts the task at once and appends it,
    however long the queue is. *)
Theorem negative_capacity_is_no_limit (sp : T) (timed_out : bool) st :
  INT32_MIN <= taskQueMaxThreshHold_ (pool st) < 0 ->
  queue_size (pool st) <= INT32_MAX ->
  exists st' evs,
    submitTask_admission timed_out sp st = Some (true, st', evs)
    /\ taskQue_ (pool st') = taskQue_ (pool st) ++ [sp].
Proof.
  intros Hc Hq.
  assert (queue_not_full (pool st) = true) as Hnf.
  { unfold queue_not_full, to_size_t. apply Z.ltb_lt.
    unfold queue_size, INT32_MIN, INT32_MAX in *.
    pose proof (Z.mod_unique (taskQueMaxThreshHold_ (pool st)) 18446744073709551616
                  (-1) (taskQueMaxThreshHold_ (pool st) + 18446744073709551616)
                  ltac:(lia) ltac:(lia)) as E.
    rewrite <- E. lia. }
  unfold submitTask_admission, notFull_wait_for. rewrite Hnf.
  destruct (accept_task sp st) as [st' evs] eqn:Hacc.
  exists st', evs. split; [done|].
  apply accept_task_cases in Hacc as (_ & [(_ & ->)|(_ & _ & _ & ->)]); done.
Qed.

(** X9.  With a capacity of 0 the queue is always full: [submitTask] waits
    for the second to pass and then fails, leaving the pool as it was. *)
Theorem zero_capacity_accepts_nothing (sp : T) st :
  taskQueMaxThreshHold_ (pool st) = 0 ->
  submitTask_admission false sp st = None
  /\ submitTask_admission true sp st = Some (false, st, []).
Proof.
  intros Hc. unfold submitTask_admission, notFull_wait_for, queue_not_full.
  rewrite Hc. change (to_size_t 0) with 0.
  destruct (_ <? 0) eqn:E; [apply Z.ltb_lt in E; lia|]. done.
Qed.

(** X10.  [start] after threads exist.  When [submitTask] in cached mode
    has made the threads 0, ..., g-1 before [start(n)] is called, [start]
    files its new threads under g, ..., g+n-1 but starts those under the
    keys 0, ..., n-1: the thread with identifier 0 is started a second
    time, the threads filed under n, ..., g+n-1 are never started by it, and
    the current count is set to [n] although more threads run. *)
Theorem start_after_threads_exist (n : Z) st0 (j : nat) w :
  0 < generateId_ st0 -> 1 <= n -> generateId_ st0 + n <= INT32_MAX ->
  (forall k, threads_ (pool st0) !! k
             = if decide (0 <= k < generateId_ st0)
               then Some {| threadId_ := k |} else None) ->
  os_threads st0 !! j = Some w -> threadid w = 0 ->
  exists st,
    start n st0 = Some st
    /\ os_threads st = os_threads st0 ++ workers_from 0 (Z.to_nat n)
    /\ curThreadSize_ (pool st) = n
    /\ os_threads st !! j = Some w
    /\ os_threads st !! length (os_threads st0) = Some (new_worker 0)
    /\ (forall k, n <= k < generateId_ st0 + n ->
          is_Some (threads_ (pool st) !! k)
          /\ forall i x, (length (os_threads st0) <= i)%nat ->
                os_threads st !! i = Some x -> threadid x <> k).
Proof.
  intros Hg Hn Hmax Hth Hj Hid. unfold start.
  set (st1 := set_pool _ st0).
  destruct (create_threads_spec (Z.to_nat n) st1) as [Hgen Hlook].
  { simpl. lia. }
  { simpl. lia. }
  { intros k Hk. simpl in *. rewrite Hth. destruct (decide _); [lia|done]. }
  destruct (create_threads_pool (Z.to_nat n) st1) as (ths & Hp & Ho).
  destruct (start_threads_spec (Z.to_nat n) 0 (create_threads (Z.to_nat n) st1))
    as (st & Hs & Hos & _ & idle & Hp' & _).
  { intros k Hk. rewrite Hlook. simpl. rewrite Hth.
    repeat destruct (decide _); try done; lia. }
  exists st. split; [exact Hs|].
  rewrite Hos, Ho. simpl os_threads.
  split; [done|]. split; [by rewrite Hp', Hp|].
  split; [by apply lookup_app_l_Some|].
  split.
  { rewrite lookup_app_r by lia. rewrite Nat.sub_diag, lookup_workers_from.
    destruct (decide _); [done|lia]. }
  intros k Hk. split.
  - rewrite Hp'. simpl. rewrite Hlook. simpl. rewrite Hth.
    repeat destruct (decide _); try done; lia.
  - intros i x Hi. rewrite lookup_app_r by lia. rewrite lookup_workers_from.
    destruct (decide _); [|done]. intros ?; simplify_eq. simpl. lia.
Qed.

(** ** Shutdown comes to an end *)











End Census.

(** ** ThreadCpp: MyTask, Result and Task *)

Section ThreadCppHandles.

Import ThreadCpp.

(** The sum of the [n] integers from [b] on, for [int] bounds, fits [uLong]. *)
Lemma range_sum_closed (b e : Z) :
  0 <= b -> b <= e + 1 ->
  range_sum b (e - b + 1) = (b + e) * (e - b + 1) / 2.
Proof.
  intros Hb He. unfold range_sum.
  replace ((b + e) * (e - b + 1)) with ((e - b + 1) * (e - b + 1 - 1) + b * (e - b + 1) * 2)
    by lia.
  rewrite Z.div_add by lia. lia.
Qed.

Lemma range_sum_fits (b e : Z) :
  0 <= b -> b <= e + 1 -> e <= INT32_MAX ->
  0 <= range_sum b (e - b + 1) < 18446744073709551616.
Proof.
  intros Hb He Hmax. unfold range_sum, INT32_MAX in *.
  remember (e - b + 1) as n eqn:En.
  assert (0 <= n <= 2147483648) as Hn by lia.
  assert (0 <= b <= 2147483648) as Hb' by lia.
  assert (0 <= n * (n - 1) <= 2147483648 * 2147483648) as Hnn by nia.
  assert (0 <= n * (n - 1) / 2 <= 2147483648 * 2147483648) as Hd.
  { split; [apply Z.div_pos; lia|]. apply Z.div_le_upper_bound; lia. }
  assert (0 <= b * n <= 2147483648 * 2147483648) as Hbn by nia.
  lia.
Qed.

(** X12.  [MyTask(b, e).run()] with [0 <= b <= e + 1] and [0 <= e] returns
    the sum of the integers from [b] to [e], which is
    [(b + e) * (e - b + 1) / 2] without any wrap-around, after [e - b + 1]
    rounds of its loop and not before. *)
Theorem MyTask_run_sums_the_range (b e : Z) (fuel : nat) :
  0 <= b -> 0 <= e -> b <= e + 1 -> e <= INT32_MAX ->
  MyTask_run b e fuel
  = if decide (Z.to_nat (e - b + 1) < fuel)%nat
    then Some (Returns (Any_uLong ((b + e) * (e - b + 1) / 2)))
    else None.
Proof.
  intros Hb He Hbe Hmax. unfold MyTask_run, INT32_MAX in *.
  rewrite (to_uLong_small b) by lia.
  assert (to_uLong e = e) as Ee by (apply to_uLong_small; lia).
  destruct (decide _) as [Hf|Hf].
  - rewrite (sum_loop_enough (Z.to_nat (e - b + 1))); [|done|done|lia|lia|lia].
    rewrite Z2Nat.id by lia. rewrite Z.add_0_l.
    rewrite to_uLong_small by (apply range_sum_fits; unfold INT32_MAX; lia).
    by rewrite range_sum_closed.
  - rewrite (sum_loop_short fuel (Z.to_nat (e - b + 1))); [done|lia|done|lia|lia].
Qed.

(** X13.  With a negative [begin_] the loop of [MyTask::run] is not entered:
    [uLong i = begin_] is at least 2^64 - 2^31, above every [end_ >= 0], and
    the task returns 0, not the sum from [begin_] to [end_]. *)
Theorem MyTask_run_negative_begin (b e : Z) (fuel : nat) :
  INT32_MIN <= b < 0 -> 0 <= e <= INT32_MAX ->
  MyTask_run b e (S fuel) = Some (Returns (Any_uLong 0)).
Proof.
  intros Hb He. unfold MyTask_run, INT32_MIN, INT32_MAX in *. simpl sum_loop.
  rewrite (to_uLong_small e) by lia.
  assert (to_uLong b = b + 18446744073709551616) as ->.
  { unfold to_uLong. symmetry. apply (Z.mod_unique _ _ (-1)); lia. }
  destruct (_ <=? e) eqn:E; [apply Z.leb_le in E; lia|done].
Qed.

Lemma sum_loop_end_minus_one (fuel : nat) :
  forall i sum, i < 18446744073709551616 -> sum_loop fuel i (-1) sum = None.
Proof.
  induction fuel as [|fuel IH]; intros i sum Hi; simpl; [done|].
  change (to_uLong (-1)) with 18446744073709551615.
  destruct (i <=? _) eqn:E; [|apply Z.leb_gt in E; lia].
  apply IH. pose proof (to_uLong_range (i + 1)). lia.
Qed.

(** X14.  [MyTask(b, -1).run()] never returns: [end_] is converted to
    [uLong] in the test [i <= end_], where -1 is 2^64 - 1, and no [uLong]
    is above it. *)
Theorem MyTask_run_end_minus_one_never_returns (b : Z) (fuel : nat) :
  MyTask_run b (-1) fuel = None.
Proof.
  unfold MyTask_run. rewrite sum_loop_end_minus_one; [done|].
  apply to_uLong_range.
Qed.

(** What [submitTask] has done when it returns. *)
Lemma submitTask_cases (timed_out : bool) (sp : shared_ptr) st this st' evs :
  submitTask timed_out sp st = Some (this, st', evs) ->
  exists t obj,
    sp = Some t /\ tasks st !! t = Some obj
    /\ this = length (results st)
    /\ tasks st' = <[t := Task_setResult this obj]> (tasks st)
    /\ results st'
       = results st ++ [{| isValid_ := queue_not_full (pool (proc st)); task_ := sp;
                           any_ := Any_null; sem_ := Semaphore_new |}]
    /\ (if queue_not_full (pool (proc st))
        then accept_task sp (proc st) = (proc st', evs)
        else proc st' = proc st /\ evs = []).
Proof.
  unfold submitTask, notFull_wait_for. intros H.
  destruct (queue_not_full (pool (proc st))) eqn:Hq; simpl in H.
  - destruct (accept_task sp (proc st)) as [pr e] eqn:Hacc.
    unfold Result_new in H. destruct sp as [t|]; simpl in H; [|done].
    destruct (tasks st !! t) as [obj|] eqn:Ht; simpl in H; [|done].
    simplify_eq. exists t, obj. done.
  - destruct timed_out; simpl in H; [|done].
    unfold Result_new in H. destruct sp as [t|]; simpl in H; [|done].
    destruct (tasks st !! t) as [obj|] eqn:Ht; simpl in H; [|done].
    simplify_eq. exists t, obj. done.
Qed.

(** X15.  [submitTask] returns only for a pointer to a Task: with a null
    pointer the constructor of the [Result] it returns goes through
    [task_->setResult], accepted or not.  So the queue never comes to hold
    a null pointer through [submitTask], and the test [task != nullptr] in
    [threadFunc] cannot fail for a task that was submitted. *)
Theorem ThreadCpp_queue_holds_no_null
    (timed_out : bool) (sp : shared_ptr) st this st' evs :
  Forall (fun q : shared_ptr => is_Some q) (taskQue_ (pool (proc st))) ->
  submitTask timed_out sp st = Some (this, st', evs) ->
  is_Some sp
  /\ Forall (fun q : shared_ptr => is_Some q) (taskQue_ (pool (proc st')))
  /\ submitTask timed_out None st = None.
Proof.
  intros Hq H.
  apply submitTask_cases in H as (t & obj & -> & Ht & _ & _ & _ & Hp).
  split; [eauto|]. split.
  - destruct (queue_not_full _).
    + apply accept_task_cases in Hp as (_ & [(_ & ->)|(_ & _ & _ & ->)]); simpl;
        apply Forall_app; split; try done; by repeat constructor.
    + destruct Hp as [-> _]. done.
  - unfold submitTask, notFull_wait_for.
    destruct (queue_not_full _); simpl.
    + by destruct (accept_task None (proc st)).
    + by destruct timed_out.
Qed.

(** X16.  A [Result] hands its value over once.  On a valid [Result] whose
    semaphore is at 0, [get()] blocks; after [setVal(any)] it returns
    [any]; and a second [get()] blocks again, the value moved out and the
    semaphore taken: nothing will post it a second time. *)
Theorem Result_get_gives_the_value_once (this : nat) st (r : Result) (any : Any) :
  results st !! this = Some r ->
  isValid_ r = true -> resLimit_ (sem_ r) = 0 ->
  Result_get this st = None
  /\ exists st2 r2,
       Result_get this
         {| proc := proc st; tasks := tasks st;
            results := <[this := Result_setVal any r]> (results st) |}
       = Some (any, st2)
       /\ results st2 !! this = Some r2 /\ any_ r2 = Any_null
       /\ Result_get this st2 = None.
Proof.
  intros Hr Hv Hs.
  assert (this < length (results st))%nat as Hl by (by eapply lookup_lt_Some).
  destruct r as [v tk a [k]]. simpl in Hv, Hs. subst v k.
  split.
  - unfold Result_get. rewrite Hr. reflexivity.
  - unfold Result_get at 1. cbn [results].
    rewrite list_lookup_insert_eq by done.
    eexists _, _. split; [reflexivity|]. cbn [results].
    rewrite list_insert_insert_eq.
    split; [by apply list_lookup_insert_eq|]. split; [reflexivity|].
    unfold Result_get. cbn [results].
    rewrite list_lookup_insert_eq by done. reflexivity.
Qed.

(** X17.  A Task object reports to the [Result] made last for it.  When the
    same Task is submitted a second time, accepted or not, its [result_] is
    moved to the second [Result]; the task then delivers there, and
    [get()] on the first handle, if that submission was accepted, stays
    blocked after the task has run. *)
Theorem resubmission_takes_the_result_away
    (t : nat) (to1 to2 : bool) st r1 st1 e1 r2 st2 e2 (fuel : nat) st3 :
  submitTask to1 (Some t) st = Some (r1, st1, e1) ->
  submitTask to2 (Some t) st1 = Some (r2, st2, e2) ->
  Task_exec fuel t st2 = Some (Returns st3) ->
  r2 = S r1
  /\ (exists obj, tasks st2 !! t = Some obj /\ result_ obj = Some r2)
  /\ results st3 !! r1 = results st1 !! r1
  /\ (queue_not_full (pool (proc st)) = true -> Result_get r1 st3 = None).
Proof.
  intros H1 H2 H3.
  apply submitTask_cases in H1 as (? & obj1 & [= <-] & Ht1 & -> & Htasks1 & Hres1 & _).
  apply submitTask_cases in H2 as (? & obj2 & [= <-] & Ht2 & -> & Htasks2 & Hres2 & _).
  assert (t < length (tasks st))%nat as Hlt by (by eapply lookup_lt_Some).
  assert (length (results st1) = S (length (results st))) as Hlen
    by (rewrite Hres1, length_app; simpl; lia).
  assert (tasks st2 !! t = Some (Task_setResult (length (results st1)) obj2)) as Ht3.
  { rewrite Htasks2. apply list_lookup_insert_eq. rewrite Htasks1, length_insert. done. }
  assert (results st2 !! length (results st)
          = Some {| isValid_ := queue_not_full (pool (proc st)); task_ := Some t;
                    any_ := Any_null; sem_ := Semaphore_new |}) as Hr1.
  { rewrite Hres2, Hres1. rewrite lookup_app_l by (rewrite length_app; simpl; lia).
    by apply list_lookup_middle. }
  split; [done|]. split; [eauto|].
  unfold Task_exec in H3. rewrite Ht3 in H3. simpl in H3.
  destruct (results st2 !! length (results st1)) as [R2|] eqn:HR2; simpl in H3; [|done].
  destruct (run obj2 fuel) as [[any|e]|]; simpl in H3; [|done|done].
  simplify_eq. simpl.
  assert (results st1 !! length (results st)
          = Some {| isValid_ := queue_not_full (pool (proc st)); task_ := Some t;
                    any_ := Any_null; sem_ := Semaphore_new |}) as Hr1'
    by (rewrite Hres1; by apply list_lookup_middle).
  split.
  - rewrite list_lookup_insert_ne by lia. by rewrite Hr1, Hr1'.
  - intros Hq. unfold Result_get. simpl.
    rewrite list_lookup_insert_ne by lia. rewrite Hr1. simpl. rewrite Hq. done.
Qed.

End ThreadCppHandles.

(** ** ThreadCppFinal: from the submission to the future *)

Section FinalHandles.

Import ThreadCppFinal.

Context {RType : Type} (d : RType).

(** A task accepted into an empty queue is the one the next thread at the
    head of its loop takes. *)
Lemma accept_then_lock {T : Type} (sp : T) (st st1 : Process T) evs (i : nat) w :
  taskQue_ (pool st) = [] ->
  os_threads st !! i = Some w -> pc w = LoopHead ->
  accept_task sp st = (st1, evs) ->
  exists st2 evs2,
    step (Run i Lock) st1 = Some (st2, evs2)
    /\ os_threads st2 !! i = Some (set_pc (Exec sp) w)
    /\ taskQue_ (pool st2) = []
    /\ popped evs2 = [sp].
Proof.
  intros Hq Hw Hpc Hacc.
  assert (i < length (os_threads st))%nat as Hi by (by eapply lookup_lt_Some).
  assert (os_threads st1 !! i = Some w /\ taskQue_ (pool st1) = [sp]) as [Hw1 Hq1].
  { apply accept_task_cases in Hacc as (_ & [(_ & ->)|(_ & (id & Ho) & _ & Hp)]).
    - simpl. by rewrite Hq.
    - rewrite Ho, Hp. simpl. rewrite Hq. split; [|done].
      by rewrite lookup_app_l. }
  assert (i < length (os_threads st1))%nat as Hi1 by (by eapply lookup_lt_Some).
  unfold step. rewrite Hw1. simpl. unfold threadFunc_step. rewrite Hpc.
  unfold while_taskQue_empty. rewrite Hq1. simpl.
  eexists _, _. split; [reflexivity|]. simpl.
  split; [by apply list_lookup_insert_eq|]. done.
Qed.

(** X18.  The future [submitTask] returns for an accepted call is that of
    the task it has put at the back of the queue, and it is not ready:
    [get()] on it blocks until a thread has run the task. *)
Theorem ThreadCppFinal_future_is_pending
    (timed_out : bool) (f : RunFn RType) (st : State RType) fut st1 evs :
  queue_not_full (pool (proc st)) = true ->
  submitTask d timed_out f st = Some (fut, st1, evs) ->
  fut = length (states st)
  /\ states st1 = states st ++ [NotReady]
  /\ taskQue_ (pool (proc st1))
     = taskQue_ (pool (proc st)) ++ [{| fn := f; state := fut |}]
  /\ future_get fut st1 = None.
Proof.
  intros Hnf H. unfold submitTask, notFull_wait_for in H. simpl in H.
  rewrite Hnf in H. simpl in H.
  destruct (accept_task _ (proc st)) as [pr e] eqn:Hacc. simplify_eq.
  split; [done|]. split; [done|]. split.
  - simpl. apply accept_task_cases in Hacc as (_ & [(_ & ->)|(_ & _ & _ & ->)]); done.
  - unfold future_get. simpl. by rewrite list_lookup_middle.
Qed.

(** X19.  From the call to the result.  A callable submitted while the
    queue is empty and a thread is at the head of its loop: the call is
    accepted, that thread takes the task with the mutex, runs it, and
    [get()] on the future then yields what the callable did, its value or
    the exception it threw; the thread is back at the head of its loop and
    the queue is empty again. *)
Theorem ThreadCppFinal_call_to_result
    (timed_out : bool) (f : RunFn RType) (st : State RType)
    (i : nat) (w : Worker (PackagedTask RType))
    (fuel : nat) (o : Outcome RType) (now : Z) :
  taskQue_ (pool (proc st)) = [] ->
  queue_not_full (pool (proc st)) = true ->
  os_threads (proc st) !! i = Some w -> pc w = LoopHead ->
  f fuel = Some o ->
  exists fut st1 evs1 pr2 evs2 st3,
    submitTask d timed_out f st = Some (fut, st1, evs1)
    /\ step (Run i Lock) (proc st1) = Some (pr2, evs2)
    /\ run_task i fuel now (set_proc pr2 st1) = Some (Returns st3)
    /\ future_get fut st3 = Some o
    /\ os_threads (proc st3) !! i
       = Some {| threadid := threadid w; lastTime := now; pc := LoopHead |}
    /\ taskQue_ (pool (proc st3)) = [].
Proof.
  intros Hq Hnf Hw Hpc Hf.
  unfold submitTask, notFull_wait_for. simpl. rewrite Hnf. simpl.
  destruct (accept_task _ (proc st)) as [pr e] eqn:Hacc.
  destruct (accept_then_lock _ _ _ _ i w Hq Hw Hpc Hacc)
    as (pr2 & evs2 & Hstep & Hw2 & Hq2 & _).
  destruct (ThreadCppFinal_outcome_is_stored
              (set_proc pr2 (set_proc pr {| proc := proc st; states := states st ++ [NotReady] |}))
              i (set_pc (Exec {| fn := f; state := length (states st) |}) w)
              {| fn := f; state := length (states st) |} fuel o now)
    as (st3 & Hrun & Hw3 & _ & _ & Hget).
  { exact Hw2. }
  { reflexivity. }
  { simpl. by apply list_lookup_middle. }
  { exact Hf. }
  eexists _, _, _, pr2, evs2, st3.
  split; [reflexivity|]. split; [exact Hstep|]. split; [exact Hrun|].
  split; [exact Hget|]. split; [exact Hw3|].
  unfold run_task in Hrun. simpl in Hrun. rewrite Hw2 in Hrun. simpl in Hrun.
  destruct (packaged_task_call _ _ _) as [[ss|?]|]; simpl in Hrun; [|done|done].
  simplify_eq. exact Hq2.
Qed.

End FinalHandles.

(** ** Instances of the further properties *)

Lemma fresh_blank {T : Type} : blank (@fresh T 0).
Proof. by repeat split. Qed.

Lemma start_on_blank_process_witness :
  exists st idle,
    start 4 (@fresh nat 0) = Some st /\ generateId_ st = 4 /\ idle = 4
    /\ idleThreadSize_ (pool st) = idle.
Proof.
  destruct (@start_on_blank_process nat 4 (fresh 0))
    as (st & idle & Hs & _ & Hg & _ & Hp & Hi).
  - apply fresh_blank.
  - split; by_computing.
  - exists st, idle. split; [exact Hs|]. split; [exact Hg|].
    split; [apply Hi; by_computing|]. rewrite Hp. reflexivity.
Defined.

Lemma start_after_counter_moved_witness : start 1 (@fresh nat 1) = None.
Proof.
  apply (@start_after_counter_moved nat 1 (fresh 1)).
  - reflexivity.
  - by_computing.
  - by_computing.
  - by_computing.
Defined.

Lemma thread_ids_never_reused_witness :
  exists st st' evs,
    start 1 cached_unstarted = Some st
    /\ run [CallSubmitTask 7%nat false; CallSubmitTask 8%nat false] st = Some (st', evs)
    /\ length (os_threads st') = 2%nat
    /\ NoDup (threadid <$> os_threads st').
Proof.
  eexists _, _, _.
  split; [vm_compute; reflexivity|].
  split; [vm_compute; reflexivity|].
  split; [reflexivity|].
  edestruct (@thread_ids_never_reused nat) with
    (n := 1) (st0 := cached_unstarted)
    (ops := [CallSubmitTask 7%nat false; CallSubmitTask 8%nat false] : list (Op nat))
    as (_ & Hnd & _).
  - by repeat split.
  - by_computing.
  - vm_compute; reflexivity.
  - by repeat constructor.
  - vm_compute; reflexivity.
  - by_computing.
  - exact Hnd.
Defined.

Lemma destructor_waits_for_every_thread_witness :
  exists st st' evs,
    start 1 (@fresh nat 0) = Some st
    /\ run [DtorClearFlag; Run 0 (Enter 0); Run 0 Lock] st = Some (st', evs)
    /\ (all_exited (pool st') = true
        <-> Forall (fun w => has_returned w = true) (os_threads st')).
Proof.
  eexists _, _, _.
  split; [vm_compute; reflexivity|].
  split; [vm_compute; reflexivity|].
  edestruct (@destructor_waits_for_every_thread nat) with
    (n := 1) (st0 := @fresh nat 0)
    (ops := [DtorClearFlag; Run 0 (Enter 0); Run 0 Lock] : list (Op nat))
    as (_ & Hiff).
  - apply fresh_blank.
  - by_computing.
  - vm_compute; reflexivity.
  - by repeat constructor.
  - vm_compute; reflexivity.
  - by_computing.
  - exact Hiff.
Defined.

Lemma idle_count_is_current_less_executing_witness :
  exists s_mid s st' evs,
    start_run [LaunchNext; Meanwhile 0 (Enter 0); Meanwhile 0 Lock]
      (start_begin 1 one_task_queued) = Some s_mid
    /\ idleThreadSize_ (pool (sproc s_mid)) = -1
    /\ idleThreadSize_ (pool (sproc s_mid)) + executing (sproc s_mid)
       = curThreadSize_ (pool (sproc s_mid)) - Z.of_nat (todo s_mid)
    /\ start_run [LaunchNext; Meanwhile 0 (Enter 0); Meanwhile 0 Lock; CountIdle]
         (start_begin 1 one_task_queued) = Some s
    /\ todo s = 0%nat
    /\ run [CallSubmitTask 8%nat false; Run 0 (TaskReturns 1); Run 0 Lock] (sproc s)
       = Some (st', evs)
    /\ executing st' = 1
    /\ idleThreadSize_ (pool st') + executing st' = curThreadSize_ (pool st').
Proof.
  eexists _, _, _, _.
  split; [vm_compute; reflexivity|].
  split; [reflexivity|].
  split.
  { eapply (proj1 (@idle_count_is_current_less_executing nat 1 one_task_queued
                     [LaunchNext; Meanwhile 0 (Enter 0); Meanwhile 0 Lock] _
                     ltac:(by repeat split) ltac:(in_range) eq_refl
                     ltac:(split; by_computing) ltac:(vm_compute; reflexivity))). }
  split; [vm_compute; reflexivity|].
  split; [reflexivity|].
  split; [vm_compute; reflexivity|].
  split; [reflexivity|].
  edestruct (@idle_count_is_current_less_executing nat) with
    (n := 1) (st0 := one_task_queued)
    (sops := [LaunchNext; Meanwhile 0 (Enter 0); Meanwhile 0 Lock; CountIdle])
    as [_ Hafter].
  - by repeat split.
  - in_range.
  - reflexivity.
  - split; by_computing.
  - vm_compute; reflexivity.
  - edestruct Hafter with
      (ops := [CallSubmitTask 8%nat false; Run 0 (TaskReturns 1); Run 0 Lock] : list (Op nat))
      as [Hsum _].
    + reflexivity.
    + by repeat constructor.
    + by repeat constructor.
    + vm_compute; reflexivity.
    + exact Hsum.
Defined.

Lemma fixed_pool_keeps_its_threads_witness :
  exists st st' evs,
    start 2 (@fresh nat 0) = Some st
    /\ run [CallSubmitTask 7%nat false; Run 0 (Enter 0); Run 0 Lock;
            Run 0 (TaskReturns 5); Run 1 (Enter 6); Run 1 Lock] st = Some (st', evs)
    /\ curThreadSize_ (pool st') = 2
    /\ length (os_threads st') = 2%nat.
Proof.
  eexists _, _, _.
  split; [vm_compute; reflexivity|].
  split; [vm_compute; reflexivity|].
  edestruct (@fixed_pool_keeps_its_threads nat) with
    (n := 2) (st0 := @fresh nat 0)
    (ops := [CallSubmitTask 7%nat false; Run 0 (Enter 0); Run 0 Lock;
             Run 0 (TaskReturns 5); Run 1 (Enter 6); Run 1 Lock] : list (Op nat))
    as (_ & Hc & Hl & _).
  - apply fresh_blank.
  - reflexivity.
  - split; by_computing.
  - vm_compute; reflexivity.
  - by repeat constructor.
  - vm_compute; reflexivity.
  - split; [exact Hc|exact Hl].
Defined.

Lemma threads_leave_after_the_queue_is_drained_witness :
  exists st1 evs1 st2 evs2,
    run one_task_then_shutdown (fresh 0) = Some (st1, evs1)
    /\ step (Run 0 Lock) st1 = Some (st2, evs2)
    /\ evs2 = [EvNotifyAll exitCond_]
    /\ emplaced evs1 = [7%nat]
    /\ emplaced evs1 = popped evs1.
Proof.
  eexists _, _, _, _.
  split; [vm_compute; reflexivity|].
  split; [vm_compute; reflexivity|].
  split; [reflexivity|].
  split; [reflexivity|].
  edestruct (@threads_leave_after_the_queue_is_drained nat) with
    (ops := one_task_then_shutdown) (st0 := @fresh nat 0) (op := Run 0 Lock : Op nat)
    as (_ & _ & Heq & _).
  - reflexivity.
  - vm_compute; reflexivity.
  - vm_compute; reflexivity.
  - apply list_elem_of_here.
  - exact Heq.
Defined.

Lemma negative_capacity_is_no_limit_witness :
  exists st' evs,
    submitTask_admission true 7%nat capacity_minus_one = Some (true, st', evs)
    /\ taskQue_ (pool st') = [7%nat].
Proof.
  apply (@negative_capacity_is_no_limit nat 7%nat true capacity_minus_one).
  - split; by_computing.
  - by_computing.
Defined.

Lemma zero_capacity_accepts_nothing_witness :
  submitTask_admission false 7%nat capacity_zero = None
  /\ submitTask_admission true 7%nat capacity_zero = Some (false, capacity_zero, []).
Proof.
  apply (@zero_capacity_accepts_nothing nat 7%nat capacity_zero). reflexivity.
Defined.


Lemma MyTask_run_sums_the_range_witness :
  ThreadCpp.MyTask_run 1 100 200%nat = Some (Returns (ThreadCpp.Any_uLong 5050)).
Proof.
  rewrite (MyTask_run_sums_the_range 1 100 200%nat); [reflexivity|by_computing..].
Defined.

Lemma MyTask_run_negative_begin_witness :
  ThreadCpp.MyTask_run (-5) 10 1%nat = Some (Returns (ThreadCpp.Any_uLong 0)).
Proof.
  apply (MyTask_run_negative_begin (-5) 10 0%nat); split; by_computing.
Defined.

Lemma ThreadCpp_queue_holds_no_null_witness :
  exists this st' evs,
    ThreadCpp.submitTask false (Some 0%nat) one_Task = Some (this, st', evs)
    /\ taskQue_ (pool (ThreadCpp.proc st')) = [Some 0%nat]
    /\ ThreadCpp.submitTask false None one_Task = None.
Proof.
  eexists _, _, _.
  split; [vm_compute; reflexivity|].
  split; [reflexivity|].
  edestruct (ThreadCpp_queue_holds_no_null false (Some 0%nat) one_Task)
    as (_ & _ & Hnull).
  - constructor.
  - vm_compute; reflexivity.
  - exact Hnull.
Defined.

Lemma Result_get_gives_the_value_once_witness :
  ThreadCpp.Result_get 0%nat one_Result = None
  /\ exists st2 r2,
       ThreadCpp.Result_get 0%nat
         {| ThreadCpp.proc := ThreadCpp.proc one_Result;
            ThreadCpp.tasks := ThreadCpp.tasks one_Result;
            ThreadCpp.results :=
              <[0%nat := ThreadCpp.Result_setVal (ThreadCpp.Any_uLong 6)
                           {| ThreadCpp.isValid_ := true; ThreadCpp.task_ := Some 0%nat;
                              ThreadCpp.any_ := ThreadCpp.Any_null;
                              ThreadCpp.sem_ := ThreadCpp.Semaphore_new |}]>
                (ThreadCpp.results one_Result) |}
       = Some (ThreadCpp.Any_uLong 6, st2)
       /\ ThreadCpp.results st2 !! 0%nat = Some r2
       /\ ThreadCpp.any_ r2 = ThreadCpp.Any_null
       /\ ThreadCpp.Result_get 0%nat st2 = None.
Proof.
  apply (Result_get_gives_the_value_once 0%nat one_Result); reflexivity.
Defined.

Lemma resubmission_takes_the_result_away_witness :
  exists r1 st1 e1 r2 st2 e2 st3,
    ThreadCpp.submitTask false (Some 0%nat) one_Task = Some (r1, st1, e1)
    /\ ThreadCpp.submitTask false (Some 0%nat) st1 = Some (r2, st2, e2)
    /\ ThreadCpp.Task_exec 10%nat 0%nat st2 = Some (Returns st3)
    /\ r1 = 0%nat /\ r2 = 1%nat
    /\ ThreadCpp.Result_get r1 st3 = None.
Proof.
  eexists _, _, _, _, _, _, _.
  split; [vm_compute; reflexivity|].
  split; [vm_compute; reflexivity|].
  split; [vm_compute; reflexivity|].
  split; [reflexivity|]. split; [reflexivity|].
  edestruct (resubmission_takes_the_result_away 0%nat false false one_Task)
    with (fuel := 10%nat) as (_ & _ & _ & Hget).
  - vm_compute; reflexivity.
  - vm_compute; reflexivity.
  - vm_compute; reflexivity.
  - apply Hget. vm_compute; reflexivity.
Defined.

Lemma ThreadCppFinal_future_is_pending_witness :
  exists fut st1 evs,
    ThreadCppFinal.submitTask 0 false (sum1 1 2) ThreadCppFinal_main_started
    = Some (fut, st1, evs)
    /\ fut = 0%nat
    /\ ThreadCppFinal.future_get fut st1 = None.
Proof.
  eexists _, _, _.
  split; [vm_compute; reflexivity|].
  split; [reflexivity|].
  edestruct (ThreadCppFinal_future_is_pending 0 false (sum1 1 2) ThreadCppFinal_main_started)
    as (_ & _ & _ & Hget).
  - vm_compute; reflexivity.
  - vm_compute; reflexivity.
  - exact Hget.
Defined.

Lemma ThreadCppFinal_call_to_result_witness :
  exists fut st1 evs1 pr2 evs2 st3,
    ThreadCppFinal.submitTask 0 false (sum1 1 2) ThreadCppFinal_main_started
    = Some (fut, st1, evs1)
    /\ step (Run 0 Lock) (ThreadCppFinal.proc st1) = Some (pr2, evs2)
    /\ ThreadCppFinal.run_task 0%nat 0%nat 1 (ThreadCppFinal.set_proc pr2 st1) = Some (Returns st3)
    /\ ThreadCppFinal.future_get fut st3 = Some (Returns 3).
Proof.
  destruct (ThreadCppFinal_call_to_result 0 false (sum1 1 2) ThreadCppFinal_main_started
              0%nat {| threadid := 0; lastTime := 0; pc := LoopHead |} 0%nat (Returns 3) 1)
    as (fut & st1 & evs1 & pr2 & evs2 & st3 & H1 & H2 & H3 & H4 & _).
  - vm_compute; reflexivity.
  - vm_compute; reflexivity.
  - vm_compute; reflexivity.
  - reflexivity.
  - vm_compute; reflexivity.
  - exists fut, st1, evs1, pr2, evs2, st3.
    split; [exact H1|]. split; [exact H2|]. split; [exact H3|exact H4].
Defined.

Lemma start_after_threads_exist_witness :
  exists st,
    start 2 one_cached_thread = Some st
    /\ threadid <$> os_threads st = [0; 0; 1]
    /\ curThreadSize_ (pool st) = 2
    /\ is_Some (threads_ (pool st) !! 2).
Proof.
  destruct (@start_after_threads_exist nat 2 one_cached_thread 0%nat (new_worker 0))
    as (st & Hs & Ho & Hc & _ & _ & Hk).
  - by_computing.
  - by_computing.
  - by_computing.
  - intros k.
    assert (threads_ (pool one_cached_thread) = <[0 := {| threadId_ := 0 |}]> ∅) as ->
      by (vm_compute; reflexivity).
    assert (generateId_ one_cached_thread = 1) as -> by (vm_compute; reflexivity).
    destruct (decide (k = 0)) as [->|Hne].
    + by rewrite lookup_insert_eq.
    + rewrite lookup_insert_ne by done. rewrite lookup_empty.
      destruct (decide _); [lia|done].
  - reflexivity.
  - reflexivity.
  - exists st. split; [exact Hs|]. split; [rewrite Ho; vm_compute; reflexivity|].
    split; [exact Hc|].
    destruct (Hk 2) as [Hsome _]; [split; by_computing|exact Hsome].
Defined.
